(** * AMM pool calculations

    A shallow embedding of [src/utils/poolCalculations.ts]: constant-product
    swap pricing, effective and real reserve prices, the funding-rate model,
    leveraged position P&L and the human-readable formatters.

    The TypeScript works on the JavaScript [number] type.  The functions are
    written once over an arithmetic interface [Number] and read at two
    instances:
    - [float], IEEE 754 binary64 as the kernel's primitive floats, which is
      what the program computes with (NaN, infinities, signed zeros and
      rounding included);
    - [Q], exact rational arithmetic, the reading under which the algebraic
      identities of the pricing formulas are stated.  Division in [Q] is
      total ([x / 0 = 0]); the statements at [Q] carry the hypotheses that
      keep the denominators they depend on away from zero.

    [Number.prototype.toFixed] is a built-in; it is modelled after ECMA-262
    on the exact value of the binary64 number it is called on. *)

From Stdlib Require Import ZArith QArith Qround Qabs Floats.
From Stdlib Require Import String Ascii List Bool Lia Lra Psatz.
From Stdlib Require Import DecimalString.
Import ListNotations.

(** ** The arithmetic the module uses *)

Declare Scope num_scope.
Delimit Scope num_scope with num.

Class Number (num : Type) : Type := {
  (** an integer literal such as [1e9] or [86400] *)
  of_Z : Z -> num;
  add : num -> num -> num;
  sub : num -> num -> num;
  mul : num -> num -> num;
  div : num -> num -> num;
  (** [a === b] *)
  strict_eq : num -> num -> bool;
  (** [a >= b] *)
  geq : num -> num -> bool
}.

Infix "+" := add : num_scope.
Infix "-" := sub : num_scope.
Infix "*" := mul : num_scope.
Infix "/" := div : num_scope.
Infix "===" := strict_eq (at level 70, no associativity) : num_scope.
Infix ">=?" := geq (at level 70, no associativity) : num_scope.

(** [Math.pow(b, e)] for the natural exponents the module uses (6, 3 and 2).
    On binary64 the products below are exact for [Math.pow(10, 6)] and
    [Math.pow(10, 3)], and [Math.pow(x, 2)] is the single rounded product
    [x * x]. *)
Fixpoint Math_pow {num} `{Number num} (b : num) (e : nat) : num :=
  match e with
  | O => of_Z 1
  | S e' => (b * Math_pow b e')%num
  end.

(** *** IEEE 754 binary64 *)

Definition float_of_Z (z : Z) : float :=
  SF2Prim (binary_normalize prec emax z 0 false).

#[export] Instance Number_float : Number float := {
  of_Z := float_of_Z;
  add := PrimFloat.add;
  sub := PrimFloat.sub;
  mul := PrimFloat.mul;
  div := PrimFloat.div;
  strict_eq := PrimFloat.eqb;
  geq := fun a b => PrimFloat.leb b a
}.

(** *** Exact rationals *)

#[export] Instance Number_Q : Number Q := {
  of_Z := inject_Z;
  add := Qplus;
  sub := Qminus;
  mul := Qmult;
  div := Qdiv;
  strict_eq := Qeq_bool;
  geq := fun a b => Qle_bool b a
}.

(** ** Data model *)

Set Implicit Arguments.

Record PoolReserves (num : Type) : Type := {
  solReserve : num;
  effectiveSolReserve : num;
  tokenReserve : num;
  effectiveTokenReserve : num;
  totalDeltaKLongs : num;
  totalDeltaKShorts : num;
  fundingConstantC : num
}.

Record FundingRate (num : Type) : Type := {
  perSecond : num;
  perDay : num;
  perAnnum : num
}.

Record Position (num : Type) : Type := {
  isLong : bool;
  rawSize : num;
  rawCollateral : num;
  leverage : num
}.

Unset Implicit Arguments.

(** ** The functions of [poolCalculations.ts] *)

Section Engine.
Context {num : Type} `{Number num}.
Local Open Scope num_scope.

Definition SOL_DECIMALS : nat := 9.
Definition TOKEN_Y_DECIMALS : nat := 6.
Definition TOKEN_Y_SUPPLY : num := of_Z 1000000000.

(** [LAMPORTS_PER_SOL] is imported from [@solana/web3.js], where it is the
    constant [1000000000]. *)
Definition LAMPORTS_PER_SOL : num := of_Z 1000000000.

Definition calculatePoolPrice (reserves : PoolReserves num) : num :=
  let effectiveSol := effectiveSolReserve reserves / LAMPORTS_PER_SOL in
  let effectiveToken :=
    effectiveTokenReserve reserves / Math_pow (of_Z 10) TOKEN_Y_DECIMALS in
  effectiveSol / effectiveToken.

Definition calculateRealReservesPrice (reserves : PoolReserves num) : num :=
  let realSol := solReserve reserves / LAMPORTS_PER_SOL in
  let realToken :=
    tokenReserve reserves / Math_pow (of_Z 10) TOKEN_Y_DECIMALS in
  if realToken === of_Z 0 then of_Z 0 else realSol / realToken.

Definition calculateRawMarketCap
    (reserves : PoolReserves num) (solPrice : num) : num :=
  let tokenYPrice := calculatePoolPrice reserves in
  TOKEN_Y_SUPPLY * tokenYPrice * solPrice.

Definition calculateRawLiquidity
    (reserves : PoolReserves num) (solPrice : num) : num :=
  let effectiveSol := effectiveSolReserve reserves / LAMPORTS_PER_SOL in
  effectiveSol * of_Z 2 * solPrice.

(** The [rawInputAmount], [x], [y] and [rawOutputAmount] constants of
    [calculateExpectedOutput], each as a function of the arguments. *)
Definition rawInputAmount (inputAmount : num) (isSolToTokenY : bool) : num :=
  if isSolToTokenY
  then inputAmount * LAMPORTS_PER_SOL
  else inputAmount * Math_pow (of_Z 10) TOKEN_Y_DECIMALS.

Definition inputReserve
    (reserves : PoolReserves num) (isSolToTokenY : bool) : num :=
  if isSolToTokenY
  then effectiveSolReserve reserves
  else effectiveTokenReserve reserves.

Definition outputReserve
    (reserves : PoolReserves num) (isSolToTokenY : bool) : num :=
  if isSolToTokenY
  then effectiveTokenReserve reserves
  else effectiveSolReserve reserves.

Definition rawOutputAmount
    (reserves : PoolReserves num) (inputAmount : num)
    (isSolToTokenY : bool) : num :=
  let rawIn := rawInputAmount inputAmount isSolToTokenY in
  let x := inputReserve reserves isSolToTokenY in
  let y := outputReserve reserves isSolToTokenY in
  (y * rawIn) / (x + rawIn).

Definition calculateExpectedOutput
    (reserves : PoolReserves num) (inputAmount : num)
    (isSolToTokenY : bool) : num :=
  let rawOut := rawOutputAmount reserves inputAmount isSolToTokenY in
  if isSolToTokenY
  then rawOut / Math_pow (of_Z 10) TOKEN_Y_DECIMALS
  else rawOut / LAMPORTS_PER_SOL.

Definition calculatePositionEntryPrice
    (size collateral leverage : num) (isLong : bool) (solPrice : num) : num :=
  let entryRate :=
    if isLong
    then (collateral * leverage) / (size * Math_pow (of_Z 10) 3)
    else (size * Math_pow (of_Z 10) 3) / (collateral * leverage) in
  entryRate * solPrice.

(** The [k_e] and [totalDeltaK] constants of [calculateFundingRate]. *)
Definition k_e (reserves : PoolReserves num) : num :=
  effectiveSolReserve reserves * effectiveTokenReserve reserves.

Definition totalDeltaK (reserves : PoolReserves num) : num :=
  totalDeltaKLongs reserves + totalDeltaKShorts reserves.

Definition calculateFundingRate
    (reserves : PoolReserves num) : FundingRate num :=
  if (totalDeltaK reserves === of_Z 0) || (k_e reserves === of_Z 0)
  then {| perSecond := of_Z 0; perDay := of_Z 0; perAnnum := of_Z 0 |}
  else
    let leverageRatio := totalDeltaK reserves / k_e reserves in
    let fundingRatePerSecond :=
      fundingConstantC reserves * Math_pow leverageRatio 2 in
    let perSecond := fundingRatePerSecond * of_Z 100 in
    let perDay := perSecond * of_Z 86400 in
    let perAnnum := perDay * of_Z 365 in
    {| perSecond := perSecond; perDay := perDay; perAnnum := perAnnum |}.

(** The [outputUsd] and [collateralUsd] variables of [calculatePositionPnL]
    as they stand after the [if (isLong)] statement. *)
Definition positionUsd
    (pos : Position num) (reserves : PoolReserves num) (solPrice : num)
    : num * num :=
  if isLong pos then
    let sizeToken := rawSize pos / Math_pow (of_Z 10) TOKEN_Y_DECIMALS in
    let expectedSol := calculateExpectedOutput reserves sizeToken false in
    let borrowedSol :=
      (rawCollateral pos / LAMPORTS_PER_SOL) * (leverage pos - of_Z 1) in
    let output := expectedSol - borrowedSol in
    let outputUsd := output * solPrice in
    let collateralUsd := (rawCollateral pos / LAMPORTS_PER_SOL) * solPrice in
    (outputUsd, collateralUsd)
  else
    let sizeSol := rawSize pos / LAMPORTS_PER_SOL in
    let expectedToken := calculateExpectedOutput reserves sizeSol true in
    let borrowedToken :=
      (rawCollateral pos / Math_pow (of_Z 10) TOKEN_Y_DECIMALS)
      * (leverage pos - of_Z 1) in
    let output := expectedToken - borrowedToken in
    let outputUsd := output * calculatePoolPrice reserves * solPrice in
    let collateralUsd :=
      (rawCollateral pos / Math_pow (of_Z 10) TOKEN_Y_DECIMALS)
      * calculatePoolPrice reserves * solPrice in
    (outputUsd, collateralUsd).

Definition outputUsd
    (pos : Position num) (reserves : PoolReserves num) (solPrice : num) : num :=
  fst (positionUsd pos reserves solPrice).

Definition collateralUsd
    (pos : Position num) (reserves : PoolReserves num) (solPrice : num) : num :=
  snd (positionUsd pos reserves solPrice).

Definition calculatePositionPnL
    (pos : Position num) (reserves : PoolReserves num) (solPrice : num) : num :=
  let '(outputUsd, collateralUsd) := positionUsd pos reserves solPrice in
  if collateralUsd === of_Z 0 then of_Z 0
  else ((outputUsd - collateralUsd) / collateralUsd) * of_Z 100.

End Engine.

(** ** Formatting: [Number.prototype.toFixed] and the two formatters *)

Local Open Scope string_scope.

(** Decimal digits of a natural number, no leading zeros, ["0"] for zero. *)
Definition digits (n : Z) : string :=
  NilZero.string_of_uint (N.to_uint (Z.to_N n)).

Fixpoint zeros (k : nat) : string :=
  match k with
  | O => EmptyString
  | S k' => String "0" (zeros k')
  end.

(** Steps 11.b and 11.c of [Number.prototype.toFixed] (ECMA-262): the digits
    of [n], padded with zeros to at least [f + 1] places, with a point before
    the last [f] of them. *)
Definition fixed_notation (n : Z) (f : nat) : string :=
  let m := digits n in
  match f with
  | O => m
  | S _ =>
      let k := String.length m in
      let m := if (k <=? f)%nat then zeros (f + 1 - k) ++ m else m in
      let k := String.length m in
      substring 0 (k - f) m ++ "." ++ substring (k - f) f m
  end.

(** Step 11.a for a binary value [m * 2^e]: the integer [n] for which
    [n / 10^f - m * 2^e] is closest to zero, the larger one of two. *)
Definition nearest_scaled (m : positive) (e : Z) (f : nat) : Z :=
  let p := (10 ^ Z.of_nat f)%Z in
  if (0 <=? e)%Z then (Z.pos m * 2 ^ e * p)%Z
  else ((2 * Z.pos m * p + 2 ^ (- e)) / 2 ^ (1 - e))%Z.

(** [Number::toString] for a finite [x >= 1e21] (so an integer, [X] its exact
    value): the shortest digit string [s] of length [k] with
    [s * 10^(n-k)] reading back as [x], the closest one to [X] when several
    do, the even one of two, in exponential notation [d.ddde+(n-1)]. *)
Definition reads_back (x : float) (k n s : Z) : bool :=
  ((10 ^ (k - 1) <=? s) && (s <? 10 ^ k))%Z
  && PrimFloat.eqb (float_of_Z (s * 10 ^ (n - k))) x.

Definition candidates (x : float) (X k n : Z) : list (Z * Z) :=
  let s0 := (X / 10 ^ (n - k))%Z in
  map (fun s => (s, n)) (filter (reads_back x k n) [s0; (s0 + 1)%Z]).

Definition closer (X k : Z) (a b : Z * Z) : Z * Z :=
  let da := Z.abs (fst a * 10 ^ (snd a - k) - X) in
  let db := Z.abs (fst b * 10 ^ (snd b - k) - X) in
  if (da <? db)%Z then a
  else if (db <? da)%Z then b
  else if Z.even (fst a) then a else b.

Definition best (X k : Z) (l : list (Z * Z)) : option (Z * Z) :=
  match l with
  | [] => None
  | a :: l' => Some (fold_left (closer X k) l' a)
  end.

Fixpoint shortest (x : float) (X nd : Z) (k : Z) (fuel : nat)
    : option (Z * Z * Z) :=
  match fuel with
  | O => None
  | S fuel' =>
      match best X k (candidates x X k nd ++ candidates x X k (nd + 1)) with
      | Some (s, n) => Some (s, n, k)
      | None => shortest x X nd (k + 1) fuel'
      end
  end.

Definition exponential_notation (s n k : Z) : string :=
  let d := digits s in
  let mantissa :=
    if (k =? 1)%Z then d
    else substring 0 1 d ++ "." ++ substring 1 (String.length d - 1) d in
  mantissa ++ "e+" ++ digits (n - 1).

Definition Number_toString_large (x : float) (m : positive) (e : Z) : string :=
  let X := (Z.pos m * 2 ^ e)%Z in
  let nd := Z.of_nat (String.length (digits X)) in
  match shortest x X nd 1 17 with
  | Some (s, n, k) => exponential_notation s n k
  | None => exponential_notation X nd nd
  end.

Class ToFixed (num : Type) : Type := {
  (** [x.toFixed(fractionDigits)] *)
  toFixed : num -> nat -> string
}.

(** [toFixed] on a binary64 value, after ECMA-262. *)
Definition toFixed_float (x : float) (f : nat) : string :=
  match Prim2SF x with
  | S754_nan => "NaN"
  | S754_infinity s => if s then "-Infinity" else "Infinity"
  | S754_zero _ => fixed_notation 0 f
  | S754_finite s m e =>
      let sgn := if s then "-" else EmptyString in
      if PrimFloat.leb 1e21 (PrimFloat.abs x)
      then sgn ++ Number_toString_large (PrimFloat.abs x) m e
      else sgn ++ fixed_notation (nearest_scaled m e f) f
  end.

#[export] Instance ToFixed_float : ToFixed float := {
  toFixed := toFixed_float
}.

(** Decimal rounding of an exact value to [f] fractional digits, halves away
    from zero, which is how the specification words the formatters'
    rounding. *)
Definition round_half_away (q : Q) (f : nat) : Z :=
  Qfloor (Qabs q * inject_Z (10 ^ Z.of_nat f) + (1 # 2)).

Definition toFixed_Q (q : Q) (f : nat) : string :=
  let sgn := if Qle_bool 0 q then EmptyString else "-" in
  sgn ++ fixed_notation (round_half_away q f) f.

#[export] Instance ToFixed_Q : ToFixed Q := {
  toFixed := toFixed_Q
}.

Section Formatting.
Context {num : Type} `{Number num} `{ToFixed num}.
Local Open Scope num_scope.

Definition formatNumber (value : num) : string :=
  if value >=? of_Z 1000000000 then
    ("$" ++ toFixed (value / of_Z 1000000000) 2 ++ "B")%string
  else if value >=? of_Z 1000000 then
    ("$" ++ toFixed (value / of_Z 1000000) 2 ++ "M")%string
  else if value >=? of_Z 1000 then
    ("$" ++ toFixed (value / of_Z 1000) 2 ++ "K")%string
  else
    ("$" ++ toFixed value 2)%string.

Definition formatTokenAmount (value : num) : string :=
  if value >=? of_Z 1000000000 then
    (toFixed (value / of_Z 1000000000) 2 ++ "B")%string
  else if value >=? of_Z 1000000 then
    (toFixed (value / of_Z 1000000) 2 ++ "M")%string
  else if value >=? of_Z 1000 then
    (toFixed (value / of_Z 1000) 2 ++ "K")%string
  else
    toFixed value 2.

Definition calculateMarketCap
    (reserves : PoolReserves num) (solPrice : num) : string :=
  formatNumber (calculateRawMarketCap reserves solPrice).

Definition calculateLiquidity
    (reserves : PoolReserves num) (solPrice : num) : string :=
  formatNumber (calculateRawLiquidity reserves solPrice).

End Formatting.

(** The exact value [m * 2^e] of a mantissa and exponent, and of a finite
    binary64 number (zero for the others). *)
Definition magnitude (m : positive) (e : Z) : Q :=
  if (0 <=? e)%Z then inject_Z (Z.pos m * 2 ^ e)
  else Z.pos m # (2 ^ Z.to_pos (- e)).

Definition exact (x : float) : Q :=
  match Prim2SF x with
  | S754_finite s m e => if s then Qopp (magnitude m e) else magnitude m e
  | _ => 0%Q
  end.

(** ** Pools and positions the statements refer to *)

Definition zeroRate {num} `{Number num} : FundingRate num :=
  {| perSecond := of_Z 0; perDay := of_Z 0; perAnnum := of_Z 0 |}.

(** The snapshot the specification gives as its example of no open leverage,
    for any value of the three fields it leaves out. *)
Definition idlePool (sol token c : float) : PoolReserves float :=
  {| solReserve := sol;
     effectiveSolReserve := 1000 * 1e9;
     tokenReserve := token;
     effectiveTokenReserve := 1000000 * 1e6;
     totalDeltaKLongs := 0;
     totalDeltaKShorts := 0;
     fundingConstantC := c |}%float.

(** [reserves] with [totalDeltaKLongs] replaced, every other field kept. *)
Definition withTotalDeltaKLongs
    {num} (reserves : PoolReserves num) (v : num) : PoolReserves num :=
  {| solReserve := solReserve reserves;
     effectiveSolReserve := effectiveSolReserve reserves;
     tokenReserve := tokenReserve reserves;
     effectiveTokenReserve := effectiveTokenReserve reserves;
     totalDeltaKLongs := v;
     totalDeltaKShorts := totalDeltaKShorts reserves;
     fundingConstantC := fundingConstantC reserves |}.

Definition doubleLongs
    {num} `{Number num} (reserves : PoolReserves num) : PoolReserves num :=
  withTotalDeltaKLongs reserves (of_Z 2 * totalDeltaKLongs reserves)%num.



(** A pool with one unit in every field. *)
Definition unitPool {num} `{Number num} : PoolReserves num :=
  {| solReserve := of_Z 1;
     effectiveSolReserve := of_Z 1;
     tokenReserve := of_Z 1;
     effectiveTokenReserve := of_Z 1;
     totalDeltaKLongs := of_Z 1;
     totalDeltaKShorts := of_Z 1;
     fundingConstantC := of_Z 1 |}.


(** 1000 SOL against 1_000_000 tokens, four units of long exposure. *)
Definition samplePool {num} `{Number num} : PoolReserves num :=
  {| solReserve := of_Z 1000000000000;
     effectiveSolReserve := of_Z 1000000000000;
     tokenReserve := of_Z 1000000000000;
     effectiveTokenReserve := of_Z 1000000000000;
     totalDeltaKLongs := of_Z 4;
     totalDeltaKShorts := of_Z 0;
     fundingConstantC := of_Z 1 |}.

(** The same pool with both token-side reserves drained. *)
Definition drainedPool : PoolReserves float :=
  {| solReserve := 1000 * 1e9;
     effectiveSolReserve := 1000 * 1e9;
     tokenReserve := 0;
     effectiveTokenReserve := 0;
     totalDeltaKLongs := 0;
     totalDeltaKShorts := 0;
     fundingConstantC := 1 |}%float.

(** A long of 1000 tokens on 1 SOL of collateral at leverage 1, and a long
    with no collateral. *)
Definition unitLong : Position Q :=
  {| isLong := true;
     rawSize := 1000000000;
     rawCollateral := 1000000000;
     leverage := 1 |}%Q.

Definition emptyLong : Position float :=
  {| isLong := true;
     rawSize := 1000000000;
     rawCollateral := 0;
     leverage := 2 |}%float.

(** The band a value falls in: the number that is printed and the suffix
    that follows it. *)
Definition bandQuotient (v : float) : float :=
  if PrimFloat.leb 1e9 v then v / 1e9
  else if PrimFloat.leb 1e6 v then v / 1e6
  else if PrimFloat.leb 1e3 v then v / 1e3
  else v.

Definition bandSuffix (v : float) : string :=
  if PrimFloat.leb 1e9 v then "B"
  else if PrimFloat.leb 1e6 v then "M"
  else if PrimFloat.leb 1e3 v then "K"
  else EmptyString.

(** ** Further definitions: reserves, strings and binary64 classes *)

(** [reserves] with the long and short aggregates exchanged. *)
Definition swapSides {num} (reserves : PoolReserves num) : PoolReserves num :=
  {| solReserve := solReserve reserves;
     effectiveSolReserve := effectiveSolReserve reserves;
     tokenReserve := tokenReserve reserves;
     effectiveTokenReserve := effectiveTokenReserve reserves;
     totalDeltaKLongs := totalDeltaKShorts reserves;
     totalDeltaKShorts := totalDeltaKLongs reserves;
     fundingConstantC := fundingConstantC reserves |}.

(** NaN or an infinity. *)
Definition SFnonfinite (x : spec_float) : Prop :=
  x = S754_nan \/ exists s, x = S754_infinity s.

Definition isDigit (c : ascii) : bool :=
  ((48 <=? nat_of_ascii c) && (nat_of_ascii c <=? 57))%nat.

Fixpoint allDigits (s : string) : bool :=
  match s with
  | EmptyString => true
  | String c s' => isDigit c && allDigits s'
  end.

(** ** The launch form ([src/app/launch/page.tsx]) *)

(** The amount field keeps [e.target.value.replace(/[^0-9.]/g, '')].  A
    character outside ASCII is encoded by bytes above 127, all of which go,
    as the character does. *)
Definition isAmountChar (c : ascii) : bool := isDigit c || Ascii.eqb c ".".

Fixpoint sanitizeAmount (value : string) : string :=
  match value with
  | EmptyString => EmptyString
  | String c rest =>
      if isAmountChar c then String c (sanitizeAmount rest)
      else sanitizeAmount rest
  end.

Fixpoint allAmountChars (s : string) : bool :=
  match s with
  | EmptyString => true
  | String c rest => isAmountChar c && allAmountChars rest
  end.


Set Implicit Arguments.
Set Maximal Implicit Insertion.

Section ImageUpload.

(** What the page reads of a [File], and [URL.createObjectURL]. *)
Variable File : Type.
Variable fileType : File -> string.
Variable createObjectURL : File -> string.






End ImageUpload.

Unset Maximal Implicit Insertion.
Unset Implicit Arguments.

(** A JSON value as [handleSubmit] looks at it: by its truthiness. *)
Inductive JsValue : Type :=
| JsUndefined
| JsNull
| JsBoolean (b : bool)
| JsNumber (x : float)
| JsString (s : string)
| JsObject.

Definition truthy (v : JsValue) : bool :=
  match v with
  | JsUndefined | JsNull => false
  | JsBoolean b => b
  | JsNumber x => negb (PrimFloat.eqb x 0 || is_nan x)
  | JsString s => negb (s =? EmptyString)
  | JsObject => true
  end.

(** How each awaited call can end.  A body that parses to [null] or
    [undefined] makes the read of [data.error] throw. *)
Inductive JsonBody : Type :=
| BodyRejected
| BodyNullish
| BodyData (error metadataUri : JsValue).

Inductive FetchOutcome : Type :=
| FetchRejected
| FetchResponse (ok : bool) (body : JsonBody).

(** What is thrown: one of the page's own errors, or whatever an external
    call rejected with. *)
Inductive Thrown : Type :=
| OwnError (message : string)
| UploadError (error : JsValue)
| ExternalError.

(** A response the page accepts: [ok], no truthy [error], a truthy
    [metadataUri]. *)
Definition accepted (o : FetchOutcome) : bool :=
  match o with
  | FetchResponse true (BodyData error metadataUri) =>
      negb (truthy error) && truthy metadataUri
  | _ => false
  end.

Set Implicit Arguments.
Set Maximal Implicit Insertion.

Section Submit.

Variable File : Type.
(** The values the external calls hand back, which the page only passes on. *)
Variables Transaction Keypair Signature Wallet : Type.
Variable parseFloat : string -> float.

Record LaunchForm : Type := {
  tokenName : string;
  tokenTicker : string;
  virtualLiquidity : string;
  formImage : option File;
  website : string;
  twitter : string;
  telegram : string
}.

Record UploadFormData : Type := {
  upFile : File;
  upName : string;
  upSymbol : string;
  upDescription : string;
  upWebsite : string;
  upTwitter : string;
  upTelegram : string
}.

Record LaunchParams : Type := {
  lpName : string;
  lpSymbol : string;
  lpDescription : string;
  lpMetadataUri : JsValue;
  lpSolAmount : float;
  lpWallet : Wallet
}.

Record SubmitEnv : Type := {
  fetchUpload : UploadFormData -> FetchOutcome;
  createLaunchTokenTransaction : LaunchParams -> option (Transaction * Keypair);
  sendTransactionWithPriorityFee : Transaction -> Keypair -> option Signature;
  showTransactionToast : Signature -> option bool
}.

Inductive Effect : Type :=
| PreventDefault
| SetIsSubmitting (b : bool)
| Fetch (url : string) (body : UploadFormData)
| CreateLaunchToken (params : LaunchParams)
| SendTransaction (tx : Transaction) (mint : Keypair)
| ShowTransactionToast (signature : Signature)
| RouterPush (path : string)
| ToastLaunchError (thrown : Thrown).

(** The form data the upload posts. *)
Definition uploadFormData (form : LaunchForm) (image : File) : UploadFormData :=
  {| upFile := image;
     upName := tokenName form;
     upSymbol := tokenTicker form;
     upDescription := "Token launched on Facemelt";
     upWebsite := website form;
     upTwitter := twitter form;
     upTelegram := telegram form |}.

(** The [if (tokenImage)] block: the effects, and the metadata URI or what
    was thrown. *)
Definition uploadMetadata
    (env : SubmitEnv) (form : LaunchForm) : list Effect * (JsValue + Thrown) :=
  match formImage form with
  | None => ([], inl (JsString EmptyString))
  | Some image =>
      let body := uploadFormData form image in
      let request := [Fetch "/api/upload-ipfs" body] in
      match fetchUpload env body with
      | FetchRejected => (request, inr ExternalError)
      | FetchResponse ok json =>
          if negb ok then (request, inr (OwnError "Failed to upload image"))
          else
            match json with
            | BodyRejected | BodyNullish => (request, inr ExternalError)
            | BodyData error metadataUri =>
                if truthy error then (request, inr (UploadError error))
                else if negb (truthy metadataUri)
                then (request,
                      inr (OwnError "No metadata URI found in response"))
                else (request, inl metadataUri)
            end
      end
  end.

(** The rest of the [try] block. *)
Definition launch
    (env : SubmitEnv) (form : LaunchForm) (wallet : Wallet)
    (metadataUri : JsValue) : list Effect * option Thrown :=
  let params :=
    {| lpName := tokenName form;
       lpSymbol := tokenTicker form;
       lpDescription := "Token launched on Facemelt";
       lpMetadataUri := metadataUri;
       lpSolAmount := parseFloat (virtualLiquidity form);
       lpWallet := wallet |} in
  match createLaunchTokenTransaction env params with
  | None => ([CreateLaunchToken params], Some ExternalError)
  | Some (transaction, mintKeypair) =>
      match sendTransactionWithPriorityFee env transaction mintKeypair with
      | None =>
          ([CreateLaunchToken params;
            SendTransaction transaction mintKeypair], Some ExternalError)
      | Some signature =>
          let sent :=
            [CreateLaunchToken params;
             SendTransaction transaction mintKeypair;
             ShowTransactionToast signature] in
          match showTransactionToast env signature with
          | None => (sent, Some ExternalError)
          | Some success =>
              if success then ((sent ++ [RouterPush "/"])%list, None)
              else (sent, None)
          end
      end
  end.

Definition handleSubmit
    (env : SubmitEnv) (form : LaunchForm) (wallet : Wallet) : list Effect :=
  let '(tried, thrown) :=
    match uploadMetadata env form with
    | (effects, inr thrown) => (effects, Some thrown)
    | (effects, inl metadataUri) =>
        let '(more, thrown) := launch env form wallet metadataUri in
        ((effects ++ more)%list, thrown)
    end in
  let caught :=
    match thrown with
    | Some t => [ToastLaunchError t]
    | None => []
    end in
  ([PreventDefault; SetIsSubmitting true] ++ tried ++ caught
   ++ [SetIsSubmitting false])%list.

Definition isTransactionEffect (e : Effect) : bool :=
  match e with
  | CreateLaunchToken _ | SendTransaction _ _ | ShowTransactionToast _ => true
  | _ => false
  end.

Definition isRouterPush (e : Effect) : bool :=
  match e with RouterPush _ => true | _ => false end.

Definition isToastError (e : Effect) : bool :=
  match e with ToastLaunchError _ => true | _ => false end.

Definition isSetIsSubmitting (e : Effect) : bool :=
  match e with SetIsSubmitting _ => true | _ => false end.

Definition isFetch (e : Effect) : bool :=
  match e with Fetch _ _ => true | _ => false end.

Definition metadataOf (e : Effect) : option JsValue :=
  match e with
  | CreateLaunchToken params => Some (lpMetadataUri params)
  | _ => None
  end.

(** The calls after the upload all went through and the toast reported
    success. *)
Definition launched
    (env : SubmitEnv) (form : LaunchForm) (wallet : Wallet)
    (uri : JsValue) : Prop :=
  exists tx kp sig,
    createLaunchTokenTransaction env
      {| lpName := tokenName form; lpSymbol := tokenTicker form;
         lpDescription := "Token launched on Facemelt";
         lpMetadataUri := uri;
         lpSolAmount := parseFloat (virtualLiquidity form);
         lpWallet := wallet |} = Some (tx, kp)
    /\ sendTransactionWithPriorityFee env tx kp = Some sig
    /\ showTransactionToast env sig = Some true.

End Submit.

Arguments PreventDefault {File Transaction Keypair Signature Wallet}.
Arguments SetIsSubmitting {File Transaction Keypair Signature Wallet} b.
Arguments Fetch {File Transaction Keypair Signature Wallet} url body.
Arguments CreateLaunchToken {File Transaction Keypair Signature Wallet} params.
Arguments SendTransaction {File Transaction Keypair Signature Wallet} tx mint.
Arguments ShowTransactionToast
  {File Transaction Keypair Signature Wallet} signature.
Arguments RouterPush {File Transaction Keypair Signature Wallet} path.
Arguments ToastLaunchError {File Transaction Keypair Signature Wallet} thrown.

Unset Maximal Implicit Insertion.
Unset Implicit Arguments.



(** A form with an image chosen, and a network on which every call is
    rejected. *)
Definition sampleForm : LaunchForm string :=
  {| tokenName := "Melt";
     tokenTicker := "MELT";
     virtualLiquidity := "30";
     formImage := Some "logo.png";
     website := EmptyString;
     twitter := EmptyString;
     telegram := EmptyString |}.

Definition offlineEnv : SubmitEnv string unit unit unit unit :=
  {| fetchUpload := fun _ => FetchRejected;
     createLaunchTokenTransaction := fun _ => None;
     sendTransactionWithPriorityFee := fun _ _ => None;
     showTransactionToast := fun _ => None |}.

(** * Properties *)

(** ** Reading the interface at an instance *)

Ltac at_Q :=
  change (@add Q Number_Q) with Qplus in *;
  change (@sub Q Number_Q) with Qminus in *;
  change (@mul Q Number_Q) with Qmult in *;
  change (@div Q Number_Q) with Qdiv in *;
  change (@strict_eq Q Number_Q) with Qeq_bool in *;
  change (@of_Z Q Number_Q) with inject_Z in *.

Ltac at_float :=
  change (@add float Number_float) with PrimFloat.add in *;
  change (@sub float Number_float) with PrimFloat.sub in *;
  change (@mul float Number_float) with PrimFloat.mul in *;
  change (@div float Number_float) with PrimFloat.div in *;
  change (@strict_eq float Number_float) with PrimFloat.eqb in *;
  change (@of_Z float Number_float) with float_of_Z in *.

(** The decimal scales, as each instance evaluates them. *)
Lemma scales_float :
  @LAMPORTS_PER_SOL float _ = 1e9%float
  /\ @Math_pow float _ (of_Z 10) TOKEN_Y_DECIMALS = 1e6%float.
Proof. split; vm_compute; reflexivity. Qed.

Lemma scales_Q :
  @LAMPORTS_PER_SOL Q _ = 1000000000%Q
  /\ @Math_pow Q _ (of_Z 10) TOKEN_Y_DECIMALS = 1000000%Q.
Proof. split; reflexivity. Qed.

Lemma zero_float : @of_Z float _ 0 = 0%float.
Proof. vm_compute; reflexivity. Qed.

(** ** Swap output *)

(** The body of [calculateExpectedOutput], whatever the arithmetic. *)
Lemma calculateExpectedOutput_unfold
    {num} `{Number num} (reserves : PoolReserves num) (dx : num) (b : bool) :
  let scale_in :=
    if b then LAMPORTS_PER_SOL else Math_pow (of_Z 10) TOKEN_Y_DECIMALS in
  let scale_out :=
    if b then Math_pow (of_Z 10) TOKEN_Y_DECIMALS else LAMPORTS_PER_SOL in
  let x := inputReserve reserves b in
  let y := outputReserve reserves b in
  let dx_raw := (dx * scale_in)%num in
  calculateExpectedOutput reserves dx b
  = (((y * dx_raw) / (x + dx_raw)) / scale_out)%num.
Proof. destruct b; reflexivity. Qed.

(** C1. For every reserves snapshot, input amount [dx] in human units and
    direction flag, [calculateExpectedOutput] scales [dx] to raw units by the
    input side's scale (1e9 for SOL, 1e6 for the token), takes [x] and [y] as
    the effective reserves of the input and output assets, and returns
    [(y * dx_raw) / (x + dx_raw)] divided by the output side's scale.  Stated
    for the binary64 arithmetic the program runs on and for exact
    arithmetic. *)
Theorem calculateExpectedOutput_formula :
  (forall (reserves : PoolReserves float) (dx : float) (isSolToTokenY : bool),
      let scale_in := if isSolToTokenY then 1e9 else 1e6 in
      let scale_out := if isSolToTokenY then 1e6 else 1e9 in
      let x := if isSolToTokenY then effectiveSolReserve reserves
               else effectiveTokenReserve reserves in
      let y := if isSolToTokenY then effectiveTokenReserve reserves
               else effectiveSolReserve reserves in
      let dx_raw := dx * scale_in in
      calculateExpectedOutput reserves dx isSolToTokenY
      = ((y * dx_raw) / (x + dx_raw)) / scale_out)%float
  /\
  (forall (reserves : PoolReserves Q) (dx : Q) (isSolToTokenY : bool),
      let scale_in := if isSolToTokenY then 1000000000 else 1000000 in
      let scale_out := if isSolToTokenY then 1000000 else 1000000000 in
      let x := if isSolToTokenY then effectiveSolReserve reserves
               else effectiveTokenReserve reserves in
      let y := if isSolToTokenY then effectiveTokenReserve reserves
               else effectiveSolReserve reserves in
      let dx_raw := dx * scale_in in
      calculateExpectedOutput reserves dx isSolToTokenY
      = ((y * dx_raw) / (x + dx_raw)) / scale_out)%Q.
Proof.
  split; intros reserves dx b; cbv zeta;
    rewrite calculateExpectedOutput_unfold; cbv zeta;
    unfold inputReserve, outputReserve.
  - destruct scales_float as [-> ->]. destruct b; reflexivity.
  - destruct scales_Q as [-> ->]. destruct b; reflexivity.
Qed.

Section ExactSwap.
Local Open Scope Q_scope.

Lemma rawInputAmount_Q (dx : Q) (b : bool) :
  rawInputAmount dx b = dx * (if b then 1000000000 else 1000000).
Proof. destruct b; reflexivity. Qed.

Lemma rawOutputAmount_Q (r : PoolReserves Q) (dx : Q) (b : bool) :
  rawOutputAmount r dx b
  = outputReserve r b * rawInputAmount dx b
    / (inputReserve r b + rawInputAmount dx b).
Proof. reflexivity. Qed.





Lemma scale_pos (b : bool) : 0 < (if b then 1000000000 else 1000000).
Proof. destruct b; reflexivity. Qed.

End ExactSwap.



(** ** Funding rate *)

Lemma calculateFundingRate_guarded
    {num} `{Number num} (reserves : PoolReserves num) :
  (totalDeltaK reserves === of_Z 0)%num = true
  \/ (k_e reserves === of_Z 0)%num = true ->
  calculateFundingRate reserves = zeroRate.
Proof.
  intros G. unfold calculateFundingRate.
  destruct G as [-> | ->]; [reflexivity | now rewrite orb_true_r].
Qed.

Lemma calculateFundingRate_open
    {num} `{Number num} (reserves : PoolReserves num) :
  (totalDeltaK reserves === of_Z 0)%num = false ->
  (k_e reserves === of_Z 0)%num = false ->
  let perSecond :=
    (fundingConstantC reserves
     * Math_pow (totalDeltaK reserves / k_e reserves) 2 * of_Z 100)%num in
  calculateFundingRate reserves
  = {| perSecond := perSecond;
       perDay := (perSecond * of_Z 86400)%num;
       perAnnum := (perSecond * of_Z 86400 * of_Z 365)%num |}.
Proof.
  intros G1 G2. unfold calculateFundingRate. now rewrite G1, G2.
Qed.

(** C5. Whenever [totalDeltaKLongs + totalDeltaKShorts === 0] or
    [effectiveSolReserve * effectiveTokenReserve === 0],
    [calculateFundingRate] returns [{perSecond: 0, perDay: 0, perAnnum: 0}],
    in any arithmetic; on binary64 it does so for the snapshot with
    effective reserves 1000*1e9 and 1_000_000*1e6 and no open leverage,
    whatever its other fields. *)
Theorem calculateFundingRate_short_circuit :
  (forall (num : Type) (N : Number num) (reserves : PoolReserves num),
      (totalDeltaKLongs reserves + totalDeltaKShorts reserves === of_Z 0)%num
      = true
      \/ (effectiveSolReserve reserves * effectiveTokenReserve reserves
          === of_Z 0)%num = true ->
      calculateFundingRate reserves
      = {| perSecond := of_Z 0; perDay := of_Z 0; perAnnum := of_Z 0 |})
  /\ (forall sol token c : float,
         calculateFundingRate (idlePool sol token c)
         = {| perSecond := 0; perDay := 0; perAnnum := 0 |}%float).
Proof.
  split.
  - intros num N reserves G. now apply calculateFundingRate_guarded.
  - intros sol token c. reflexivity.
Qed.

Section ExactFunding.
Local Open Scope Q_scope.

Lemma Qeq_bool_false (a b : Q) : ~ a == b -> Qeq_bool a b = false.
Proof.
  intros N. destruct (Qeq_bool a b) eqn:E; trivial.
  now apply Qeq_bool_eq in E.
Qed.

Lemma Math_pow_2_Q (q : Q) : Math_pow q 2 == q * q.
Proof. cbn [Math_pow]. at_Q. ring. Qed.

Lemma perSecond_open_Q (r : PoolReserves Q) :
  ~ totalDeltaK r == 0 -> ~ k_e r == 0 ->
  perSecond (calculateFundingRate r)
  == fundingConstantC r * ((totalDeltaK r / k_e r) * (totalDeltaK r / k_e r))
     * 100.
Proof.
  intros N1 N2.
  rewrite calculateFundingRate_open by (now apply Qeq_bool_false).
  cbv zeta. cbn [perSecond]. at_Q. rewrite Math_pow_2_Q. reflexivity.
Qed.


End ExactFunding.






(** ** Zero denominators on binary64 *)

Section Binary64.
Local Open Scope float_scope.

Lemma SF_zero : Prim2SF 0 = S754_zero false.
Proof. reflexivity. Qed.

Lemma SF_infinity : Prim2SF infinity = S754_infinity false.
Proof. reflexivity. Qed.

(** [x === 0] holds for the two zeros and nothing else. *)
Lemma eqb_zero_inv (x : float) :
  (x =? 0) = true -> exists s, Prim2SF x = S754_zero s.
Proof.
  rewrite FloatAxioms.eqb_spec, SF_zero.
  destruct (Prim2SF x) as [s | s | | s m e]; cbn; try discriminate.
  - now exists s.
  - destruct s; discriminate.
  - destruct s; discriminate.
Qed.

Lemma eqb_zero_intro (x : float) (s : bool) :
  Prim2SF x = S754_zero s -> (x =? 0) = true.
Proof. intros E. now rewrite FloatAxioms.eqb_spec, SF_zero, E. Qed.

Lemma eqb_zero_nonfinite (x : float) :
  Prim2SF x = S754_nan \/ (exists s, Prim2SF x = S754_infinity s) ->
  (x =? 0) = false.
Proof.
  rewrite FloatAxioms.eqb_spec, SF_zero. intros [-> | [s ->]]; [reflexivity|].
  now destruct s.
Qed.

(** A zero divided by a finite nonzero number is a zero. *)
Lemma div_zero_finite (x d : float) (s sd : bool) (m : positive) (e : Z) :
  Prim2SF x = S754_zero s -> Prim2SF d = S754_finite sd m e ->
  Prim2SF (x / d) = S754_zero (xorb s sd).
Proof. intros Ex Ed. now rewrite div_spec, Ex, Ed. Qed.

(** Anything divided by a zero is NaN or an infinity. *)
Lemma div_by_zero (a z : float) (s : bool) :
  Prim2SF z = S754_zero s ->
  Prim2SF (a / z) = S754_nan \/ exists s', Prim2SF (a / z) = S754_infinity s'.
Proof.
  intros Ez. rewrite div_spec, Ez.
  destruct (Prim2SF a) as [sa | sa | | sa m e]; cbn; eauto.
Qed.

Lemma is_nan_SF (x : float) : Prim2SF x = S754_nan -> is_nan x = true.
Proof. intros E. unfold is_nan. now rewrite FloatAxioms.eqb_spec, E. Qed.

Lemma is_infinity_SF (x : float) (s : bool) :
  Prim2SF x = S754_infinity s -> is_infinity x = true.
Proof.
  intros E. unfold is_infinity. now rewrite FloatAxioms.eqb_spec, abs_spec, E, SF_infinity.
Qed.

Lemma is_finite_SF (x : float) :
  is_finite x = true ->
  (exists s, Prim2SF x = S754_zero s)
  \/ (exists s m e, Prim2SF x = S754_finite s m e).
Proof.
  unfold is_finite, is_nan, is_infinity.
  rewrite !FloatAxioms.eqb_spec, abs_spec, SF_infinity.
  destruct (Prim2SF x) as [s | s | | s m e]; cbn; eauto.
  - destruct s; discriminate.
  - discriminate.
Qed.

Lemma nonfinite_SF (x : float) :
  Prim2SF x = S754_nan \/ (exists s, Prim2SF x = S754_infinity s) ->
  is_finite x = false
  /\ (is_nan x = true \/ is_infinity x = true).
Proof.
  intros [E | [s E]]; unfold is_finite.
  - rewrite (is_nan_SF x E). auto.
  - rewrite (is_infinity_SF x s E), orb_true_r. auto.
Qed.

(** A zero times a finite number is a zero. *)
Lemma mul_zero_finite (z p : float) (s : bool) :
  Prim2SF z = S754_zero s -> is_finite p = true ->
  exists s', Prim2SF (z * p) = S754_zero s'.
Proof.
  intros Ez F. rewrite mul_spec, Ez.
  destruct (is_finite_SF p F) as [[sp ->] | (sp & m & e & ->)]; cbn; eauto.
Qed.

Lemma lamports_SF :
  exists m e, Prim2SF LAMPORTS_PER_SOL = S754_finite false m e.
Proof. eexists; eexists. vm_compute. reflexivity. Qed.

Lemma token_scale_SF :
  exists m e, Prim2SF (Math_pow (of_Z 10) TOKEN_Y_DECIMALS)
              = S754_finite false m e.
Proof. eexists; eexists. vm_compute. reflexivity. Qed.

End Binary64.

(** C2. On binary64 the two price functions differ at a zero token
    denominator: [calculateRealReservesPrice] returns exactly 0 whenever
    [tokenReserve === 0], whatever [solReserve] is, while
    [calculatePoolPrice] divides unguarded and, whenever
    [effectiveTokenReserve === 0], yields a non-finite number (NaN, or an
    infinity of either sign) and never 0. *)
Theorem price_zero_denominator_asymmetry :
  (forall reserves : PoolReserves float,
      (tokenReserve reserves =? 0)%float = true ->
      calculateRealReservesPrice reserves = 0%float)
  /\ (forall reserves : PoolReserves float,
         (effectiveTokenReserve reserves =? 0)%float = true ->
         is_finite (calculatePoolPrice reserves) = false
         /\ (is_nan (calculatePoolPrice reserves) = true
             \/ is_infinity (calculatePoolPrice reserves) = true)
         /\ (calculatePoolPrice reserves =? 0)%float = false).
Proof.
  destruct token_scale_SF as (m & e & Escale). split.
  - intros reserves G. apply eqb_zero_inv in G. destruct G as [s Es].
    unfold calculateRealReservesPrice. rewrite zero_float. at_float.
    now rewrite (eqb_zero_intro _ _ (div_zero_finite _ _ _ _ _ _ Es Escale)).
  - intros reserves G. apply eqb_zero_inv in G. destruct G as [s Es].
    unfold calculatePoolPrice. at_float.
    pose proof (div_zero_finite _ _ _ _ _ _ Es Escale) as Ez.
    pose proof (div_by_zero
                  (effectiveSolReserve reserves / LAMPORTS_PER_SOL)%float
                  _ _ Ez) as Hq.
    destruct (nonfinite_SF _ Hq) as [F C].
    repeat split; trivial. now apply eqb_zero_nonfinite.
Qed.

(** ** Position profit and loss *)

Lemma calculatePositionPnL_unfold
    {num} `{Number num}
    (pos : Position num) (reserves : PoolReserves num) (solPrice : num) :
  calculatePositionPnL pos reserves solPrice
  = if (collateralUsd pos reserves solPrice === of_Z 0)%num then of_Z 0
    else (((outputUsd pos reserves solPrice
            - collateralUsd pos reserves solPrice)
           / collateralUsd pos reserves solPrice) * of_Z 100)%num.
Proof.
  unfold calculatePositionPnL, collateralUsd, outputUsd.
  now destruct (positionUsd pos reserves solPrice).
Qed.

Section ExactPnL.
Local Open Scope Q_scope.

Lemma collateralUsd_Q (pos : Position Q) (r : PoolReserves Q) (p : Q) :
  collateralUsd pos r p
  = if isLong pos then rawCollateral pos / 1000000000 * p
    else rawCollateral pos / 1000000 * calculatePoolPrice r * p.
Proof. unfold collateralUsd, positionUsd. now destruct (isLong pos). Qed.

Lemma outputUsd_long_Q (pos : Position Q) (r : PoolReserves Q) (p : Q) :
  isLong pos = true ->
  outputUsd pos r p
  = (calculateExpectedOutput r (rawSize pos / 1000000) false
     - rawCollateral pos / 1000000000 * (leverage pos - 1)) * p.
Proof. intros L. unfold outputUsd, positionUsd. now rewrite L. Qed.

Lemma pnl_zero_Q (pos : Position Q) (r : PoolReserves Q) (p : Q) :
  collateralUsd pos r p == 0 -> calculatePositionPnL pos r p = 0.
Proof.
  intros E. rewrite calculatePositionPnL_unfold. at_Q.
  change (inject_Z 0) with 0.
  apply Qeq_bool_iff in E. now rewrite E.
Qed.

Lemma calculatePoolPrice_Q (r : PoolReserves Q) :
  calculatePoolPrice r
  = (effectiveSolReserve r / 1000000000) / (effectiveTokenReserve r / 1000000).
Proof. reflexivity. Qed.

End ExactPnL.

(** C8. Whenever the [collateralUsd] that [calculatePositionPnL] computes
    is [=== 0], the function returns exactly 0 and divides by nothing, in any
    arithmetic.  In exact arithmetic, where the pool price is defined (a long,
    which does not use it, or a nonzero effective token reserve), that is the
    case when [rawCollateral] is zero, when [solPrice] is zero, and for a
    short when the effective pool price is zero.  On binary64 it is the case
    for a long with [rawCollateral === 0] at any finite [solPrice]. *)
Theorem calculatePositionPnL_zero_collateral :
  (forall (num : Type) (N : Number num)
          (pos : Position num) (reserves : PoolReserves num) (solPrice : num),
      (collateralUsd pos reserves solPrice === of_Z 0)%num = true ->
      calculatePositionPnL pos reserves solPrice = of_Z 0)
  /\ (forall (pos : Position Q) (reserves : PoolReserves Q) (solPrice : Q),
         isLong pos = true \/ ~ effectiveTokenReserve reserves == 0 ->
         rawCollateral pos == 0
         \/ solPrice == 0
         \/ (isLong pos = false /\ calculatePoolPrice reserves == 0) ->
         collateralUsd pos reserves solPrice == 0
         /\ calculatePositionPnL pos reserves solPrice = 0)%Q
  /\ (forall (pos : Position float) (reserves : PoolReserves float)
             (solPrice : float),
         isLong pos = true ->
         (rawCollateral pos =? 0) = true ->
         is_finite solPrice = true ->
         calculatePositionPnL pos reserves solPrice = 0)%float.
Proof.
  split; [| split].
  - intros num N pos reserves solPrice G.
    rewrite calculatePositionPnL_unfold. now rewrite G.
  - intros pos reserves solPrice _ G.
    assert (E : (collateralUsd pos reserves solPrice == 0)%Q).
    { rewrite collateralUsd_Q.
      destruct G as [G | [G | (L & G)]].
      - destruct (isLong pos); rewrite G; unfold Qdiv; ring.
      - destruct (isLong pos); rewrite G; ring.
      - rewrite L, G. ring. }
    split; [exact E | now apply pnl_zero_Q].
  - intros pos reserves solPrice L G F.
    apply eqb_zero_inv in G. destruct G as [s Es].
    destruct lamports_SF as (m & e & El).
    pose proof (div_zero_finite _ _ _ _ _ _ Es El) as Ed.
    destruct (mul_zero_finite _ solPrice _ Ed F) as [s' Em].
    rewrite calculatePositionPnL_unfold.
    assert (E : collateralUsd pos reserves solPrice
                = (rawCollateral pos / LAMPORTS_PER_SOL * solPrice)%float).
    { unfold collateralUsd, positionUsd. now rewrite L. }
    rewrite E, zero_float. at_float.
    now rewrite (eqb_zero_intro _ _ Em).
Qed.


(** ** Formatting on binary64 *)

Section Rounding.
Local Open Scope Q_scope.

(** [round_half_away q f] is the integer nearest to [|q| * 10^f], the one
    further from zero at a half. *)
Lemma round_half_away_bounds (q : Q) (f : nat) :
  inject_Z (round_half_away q f) - (1 # 2)
  <= Qabs q * inject_Z (10 ^ Z.of_nat f)
  /\ Qabs q * inject_Z (10 ^ Z.of_nat f)
     < inject_Z (round_half_away q f) + (1 # 2).
Proof.
  unfold round_half_away. set (t := Qabs q * inject_Z (10 ^ Z.of_nat f)).
  pose proof (Qfloor_le (t + (1 # 2))) as L.
  pose proof (Qlt_floor (t + (1 # 2))) as U.
  rewrite inject_Z_plus in U. change (inject_Z 1) with 1 in U.
  split; lra.
Qed.

Lemma round_half_away_opp (q : Q) (f : nat) :
  round_half_away (- q) f = round_half_away q f.
Proof.
  unfold round_half_away. apply Qfloor_comp. now rewrite Qabs_opp.
Qed.

Lemma pow2_to_pos (e : Z) :
  (e < 0)%Z -> Z.pos (2 ^ Z.to_pos (- e)) = (2 ^ (- e))%Z.
Proof.
  intros He. rewrite Pos2Z.inj_pow, Z2Pos.id by lia. reflexivity.
Qed.

Lemma magnitude_pos (m : positive) (e : Z) : 0 < magnitude m e.
Proof.
  unfold magnitude. destruct (Z.leb_spec 0 e) as [He | He].
  - rewrite <- (Zlt_Qlt 0). apply Z.mul_pos_pos; [lia|].
    apply Z.pow_pos_nonneg; lia.
  - reflexivity.
Qed.

(** The integer arithmetic on mantissa and exponent rounds the exact
    value. *)
Lemma nearest_scaled_exact (m : positive) (e : Z) (f : nat) :
  nearest_scaled m e f = round_half_away (magnitude m e) f.
Proof.
  unfold nearest_scaled, round_half_away, magnitude.
  set (p := (10 ^ Z.of_nat f)%Z).
  destruct (Z.leb_spec 0 e) as [He | He];
    unfold Qfloor, Qplus, Qmult, Qabs, inject_Z; cbn [Qnum Qden].
  - assert (Hm : (0 <= Z.pos m * 2 ^ e)%Z)
      by (apply Z.mul_nonneg_nonneg; [lia | apply Z.pow_nonneg; lia]).
    rewrite Z.abs_eq by exact Hm.
    change (Z.pos (1 * 1 * 2)) with 2%Z. change (Z.pos (1 * 1)) with 1%Z.
    apply Z.div_unique with (r := 1%Z); lia.
  - rewrite Pos.mul_1_r, Pos2Z.inj_mul, pow2_to_pos by exact He.
    replace (1 - e)%Z with (- e + 1)%Z by lia.
    rewrite Z.pow_add_r by lia. change (Z.abs (Z.pos m)) with (Z.pos m).
    f_equal; lia.
Qed.

End Rounding.

(** On a finite number below 1e21 in magnitude, [toFixed] prints the decimal
    rounding, halves away from zero, of the number's exact binary value. *)
Lemma toFixed_float_exact (x : float) (f : nat) :
  is_finite x = true ->
  PrimFloat.leb 1e21 (PrimFloat.abs x) = false ->
  toFixed_float x f = toFixed_Q (exact x) f.
Proof.
  intros F B. unfold toFixed_float, toFixed_Q, exact.
  destruct (is_finite_SF x F) as [[s E] | (s & m & e & E)]; rewrite E.
  - reflexivity.
  - rewrite B, nearest_scaled_exact.
    pose proof (magnitude_pos m e) as P. destruct s.
    + rewrite round_half_away_opp.
      replace (Qle_bool 0 (- magnitude m e)) with false; [reflexivity|].
      symmetry. apply not_true_is_false. rewrite Qle_bool_iff. lra.
    + replace (Qle_bool 0 (magnitude m e)) with true; [reflexivity|].
      symmetry. apply Qle_bool_iff. lra.
Qed.

Lemma formatNumber_prefix (v : float) :
  formatNumber v = "$" ++ formatTokenAmount v.
Proof.
  unfold formatNumber, formatTokenAmount.
  destruct (v >=? of_Z 1000000000)%num; [reflexivity|].
  destruct (v >=? of_Z 1000000)%num; [reflexivity|].
  destruct (v >=? of_Z 1000)%num; reflexivity.
Qed.

Lemma formatTokenAmount_bands (v : float) :
  formatTokenAmount v
  = if PrimFloat.leb 1e9 v then toFixed_float (v / 1e9) 2 ++ "B"
    else if PrimFloat.leb 1e6 v then toFixed_float (v / 1e6) 2 ++ "M"
    else if PrimFloat.leb 1e3 v then toFixed_float (v / 1e3) 2 ++ "K"
    else toFixed_float v 2.
Proof. reflexivity. Qed.

Lemma append_empty_r (s : string) : s ++ EmptyString = s.
Proof. induction s as [| c s IH]; cbn; [reflexivity | now rewrite IH]. Qed.

Lemma formatTokenAmount_band (v : float) :
  formatTokenAmount v = toFixed_float (bandQuotient v) 2 ++ bandSuffix v.
Proof.
  rewrite formatTokenAmount_bands. unfold bandQuotient, bandSuffix.
  destruct (PrimFloat.leb 1e9 v); [reflexivity|].
  destruct (PrimFloat.leb 1e6 v); [reflexivity|].
  destruct (PrimFloat.leb 1e3 v); [reflexivity|].
  now rewrite append_empty_r.
Qed.

(** C10, as stated, fails: the magnitude 1_005_000 falls in the "M" band with
    quotient 1.005, which decimal rounding, halves away from zero, takes to
    1.01; the formatters print 1.00, because the binary64 quotient is just
    below 1.005. *)
Lemma formatNumber_not_decimal_rounding :
  (exact 1005000 == 1005000)%Q
  /\ formatNumber 1005000%Q = "$1.01M"
  /\ formatNumber 1005000%float = "$1.00M"
  /\ formatTokenAmount 1005000%Q = "1.01M"
  /\ formatTokenAmount 1005000%float = "1.00M"
  /\ formatNumber 1005000%float <> formatNumber (exact 1005000).
Proof.
  repeat split; try (vm_compute; reflexivity).
  vm_compute. discriminate.
Qed.

(** C10, amended. [formatNumber] is ["$"] followed by [formatTokenAmount];
    [formatTokenAmount] takes the band by the thresholds 1e9 ("B"), 1e6 ("M")
    and 1e3 ("K"), else the value itself, and prints the binary64 quotient
    with [toFixed(2)]: when that quotient is finite and below 1e21 in
    magnitude, the digits are its exact binary value rounded to 2 fractional
    digits, halves away from zero.  In particular
    [formatNumber(1_500_000) = "$1.50M"], [formatNumber(999) = "$999.00"] and
    [formatTokenAmount(2_500_000_000) = "2.50B"]. *)
Theorem format_bands_binary_rounding :
  (forall v : float,
      is_finite (bandQuotient v) = true ->
      PrimFloat.leb 1e21 (PrimFloat.abs (bandQuotient v)) = false ->
      let q := exact (bandQuotient v) in
      let sign := if Qle_bool 0 q then EmptyString else "-" in
      let n := round_half_away q 2 in
      (inject_Z n - (1 # 2) <= Qabs q * 100 < inject_Z n + (1 # 2))%Q
      /\ formatTokenAmount v = sign ++ fixed_notation n 2 ++ bandSuffix v
      /\ formatNumber v = "$" ++ sign ++ fixed_notation n 2 ++ bandSuffix v)
  /\ formatNumber 1500000%float = "$1.50M"
  /\ formatNumber 999%float = "$999.00"
  /\ formatTokenAmount 2500000000%float = "2.50B".
Proof.
  split; [| repeat split; vm_compute; reflexivity].
  intros v F B q sign n.
  assert (E : formatTokenAmount v = sign ++ fixed_notation n 2 ++ bandSuffix v).
  { rewrite formatTokenAmount_band, (toFixed_float_exact _ 2 F B).
    unfold toFixed_Q. fold q sign n.
    generalize (fixed_notation n 2) (bandSuffix v). intros a b.
    destruct (Qle_bool 0 q); subst sign; cbn; [reflexivity|].
    reflexivity. }
  split; [exact (round_half_away_bounds q 2) |].
  split; [exact E | now rewrite formatNumber_prefix, E].
Qed.

(** ** The theorems at concrete pools *)

Lemma price_zero_denominator_asymmetry_witness :
  calculateRealReservesPrice drainedPool = 0%float
  /\ is_finite (calculatePoolPrice drainedPool) = false.
Proof.
  destruct price_zero_denominator_asymmetry as [R P]. split.
  - apply (R drainedPool). reflexivity.
  - apply (P drainedPool). reflexivity.
Defined.



Lemma calculateFundingRate_short_circuit_witness :
  calculateFundingRate drainedPool
  = {| perSecond := 0; perDay := 0; perAnnum := 0 |}%float.
Proof.
  apply (proj1 calculateFundingRate_short_circuit float Number_float drainedPool).
  left. reflexivity.
Defined.



Lemma calculatePositionPnL_zero_collateral_witness :
  calculatePositionPnL emptyLong (@samplePool float _) 150%float = 0%float
  /\ calculatePositionPnL unitLong (@samplePool Q _) 0%Q = 0%Q
  /\ calculatePositionPnL emptyLong (@samplePool float _) 1%float = 0%float.
Proof.
  destruct calculatePositionPnL_zero_collateral as (G & E & B).
  split; [| split].
  - apply (G float Number_float emptyLong samplePool 150%float). reflexivity.
  - apply (E unitLong samplePool 0%Q).
    + left. reflexivity.
    + right. left. reflexivity.
  - apply (B emptyLong samplePool 1%float); reflexivity.
Defined.


Lemma format_bands_binary_rounding_witness :
  formatTokenAmount 1500000%float
  = (if Qle_bool 0 (exact (bandQuotient 1500000)) then EmptyString else "-")
    ++ fixed_notation (round_half_away (exact (bandQuotient 1500000)) 2) 2
    ++ bandSuffix 1500000.
Proof.
  apply (proj1 format_bands_binary_rounding 1500000%float).
  - reflexivity.
  - reflexivity.
Defined.

(** * Further properties *)

(** ** Prices and quotes in exact arithmetic *)

(** X1. On a pool whose effective reserves are its real reserves, and whose
    normalised token reserve is not [=== 0], [calculateRealReservesPrice]
    and [calculatePoolPrice] return the same number, in any arithmetic. *)
Theorem real_price_matches_pool_price :
  forall (num : Type) (N : Number num) (reserves : PoolReserves num),
    effectiveSolReserve reserves = solReserve reserves ->
    effectiveTokenReserve reserves = tokenReserve reserves ->
    (tokenReserve reserves / Math_pow (of_Z 10) TOKEN_Y_DECIMALS
     === of_Z 0)%num = false ->
    calculateRealReservesPrice reserves = calculatePoolPrice reserves.
Proof.
  intros num N r ES ET G. unfold calculateRealReservesPrice, calculatePoolPrice.
  now rewrite G, ES, ET.
Qed.

Section ExactQuotes.
Local Open Scope Q_scope.

Lemma calculateExpectedOutput_Q (r : PoolReserves Q) (dx : Q) (b : bool) :
  calculateExpectedOutput r dx b
  = rawOutputAmount r dx b / (if b then 1000000 else 1000000000).
Proof. destruct b; reflexivity. Qed.

Lemma Qdiv_pos (a b : Q) : 0 < a -> 0 < b -> 0 < a / b.
Proof. intros Ha Hb. apply Qlt_shift_div_l; lra. Qed.

Lemma quote_sol_to_token (r : PoolReserves Q) (dx : Q) :
  calculateExpectedOutput r dx true
  = effectiveTokenReserve r * (dx * 1000000000)
    / (effectiveSolReserve r + dx * 1000000000) / 1000000.
Proof. reflexivity. Qed.

Lemma quote_token_to_sol (r : PoolReserves Q) (dx : Q) :
  calculateExpectedOutput r dx false
  = effectiveSolReserve r * (dx * 1000000)
    / (effectiveTokenReserve r + dx * 1000000) / 1000000000.
Proof. reflexivity. Qed.

Lemma calculatePoolPrice_pos (r : PoolReserves Q) :
  0 < effectiveSolReserve r -> 0 < effectiveTokenReserve r ->
  0 < calculatePoolPrice r.
Proof.
  intros HS HT. rewrite calculatePoolPrice_Q. apply Qdiv_pos; apply Qdiv_pos; lra.
Qed.

(** A quote is worth less than its input at the spot price. *)
Lemma spot_bound (r : PoolReserves Q) (dx : Q) :
  0 < effectiveSolReserve r -> 0 < effectiveTokenReserve r -> 0 < dx ->
  calculateExpectedOutput r dx true * calculatePoolPrice r < dx
  /\ calculateExpectedOutput r dx false < dx * calculatePoolPrice r.
Proof.
  intros HS HT Hd.
  rewrite quote_sol_to_token, quote_token_to_sol, calculatePoolPrice_Q.
  set (S := effectiveSolReserve r) in *.
  set (T := effectiveTokenReserve r) in *.
  split.
  - assert (E : T * (dx * 1000000000) / (S + dx * 1000000000) / 1000000
                * (S / 1000000000 / (T / 1000000))
                == dx * (S / (S + dx * 1000000000)))
      by (field; repeat split; lra).
    rewrite E.
    assert (S / (S + dx * 1000000000) < 1) by (apply Qlt_shift_div_r; lra).
    nra.
  - assert (E : dx * (S / 1000000000 / (T / 1000000))
                - S * (dx * 1000000) / (T + dx * 1000000) / 1000000000
                == S * dx * dx * 1000 / (T * (T + dx * 1000000)))
      by (field; repeat split; lra).
    assert (0 < S * dx * dx * 1000 / (T * (T + dx * 1000000))).
    { apply Qdiv_pos.
      - repeat apply Qmult_lt_0_compat; lra.
      - apply Qmult_lt_0_compat; lra. }
    lra.
Qed.

Lemma quote_positive (r : PoolReserves Q) (dx : Q) (b : bool) :
  0 < inputReserve r b -> 0 < outputReserve r b -> 0 < dx ->
  0 < calculateExpectedOutput r dx b.
Proof.
  intros Hx Hy Hd.
  rewrite calculateExpectedOutput_Q, rawOutputAmount_Q, rawInputAmount_Q.
  pose proof (scale_pos b) as Hs.
  set (k := if b then 1000000000 else 1000000) in *.
  assert (0 < dx * k) by (apply Qmult_lt_0_compat; lra).
  apply Qdiv_pos; [| destruct b; reflexivity].
  apply Qdiv_pos; [apply Qmult_lt_0_compat; lra | lra].
Qed.

Lemma curve_subadditive (x y d1 d2 : Q) :
  0 < x -> 0 < y -> 0 < d1 -> 0 < d2 ->
  y * (d1 + d2) / (x + (d1 + d2)) < y * d1 / (x + d1) + y * d2 / (x + d2).
Proof.
  intros Hx Hy H1 H2.
  assert (E : y * d1 / (x + d1) + y * d2 / (x + d2)
              - y * (d1 + d2) / (x + (d1 + d2))
              == y * d1 * d2 * (2 * x + d1 + d2)
                 / ((x + d1) * (x + d2) * (x + (d1 + d2))))
    by (field; repeat split; lra).
  assert (0 < y * d1 * d2 * (2 * x + d1 + d2)
              / ((x + d1) * (x + d2) * (x + (d1 + d2)))).
  { apply Qdiv_pos; repeat apply Qmult_lt_0_compat; lra. }
  lra.
Qed.

End ExactQuotes.

(** X2. In exact arithmetic, on a pool with positive effective reserves,
    every swap of a positive amount is quoted below the spot price: the
    tokens quoted for [dx] SOL are worth less than [dx] SOL at
    [calculatePoolPrice], and the SOL quoted for [dx] tokens is less than
    [dx] times [calculatePoolPrice]. *)
Theorem swap_below_spot :
  forall (reserves : PoolReserves Q) (dx : Q),
    (0 < effectiveSolReserve reserves ->
     0 < effectiveTokenReserve reserves -> 0 < dx ->
     calculateExpectedOutput reserves dx true * calculatePoolPrice reserves
     < dx
     /\ calculateExpectedOutput reserves dx false
        < dx * calculatePoolPrice reserves)%Q.
Proof.
  intros reserves dx HS HT Hdx.
  destruct (spot_bound reserves dx HS HT Hdx) as [Buy Sell].
  split; [exact Buy | exact Sell].
Qed.

(** X3. In exact arithmetic, on a pool with positive effective reserves,
    quoting a swap and then the swap back against the same snapshot returns
    less than the amount started with, in either direction. *)
Theorem round_trip_quote_loses :
  forall (reserves : PoolReserves Q) (dx : Q),
    (0 < effectiveSolReserve reserves ->
     0 < effectiveTokenReserve reserves -> 0 < dx ->
     calculateExpectedOutput reserves
       (calculateExpectedOutput reserves dx true) false < dx
     /\ calculateExpectedOutput reserves
          (calculateExpectedOutput reserves dx false) true < dx)%Q.
Proof.
  intros r dx HS HT Hd.
  pose proof (calculatePoolPrice_pos r HS HT) as Hp.
  split.
  - pose proof (quote_positive r dx true HS HT Hd) as Hq.
    destruct (spot_bound r dx HS HT Hd) as [A _].
    destruct (spot_bound r _ HS HT Hq) as [_ B]. lra.
  - pose proof (quote_positive r dx false HT HS Hd) as Hq.
    destruct (spot_bound r dx HS HT Hd) as [_ A].
    destruct (spot_bound r _ HS HT Hq) as [B _].
    set (q := calculateExpectedOutput r
                (calculateExpectedOutput r dx false) true) in *.
    set (p := calculatePoolPrice r) in *.
    assert ((q * p < dx * p)%Q) by lra.
    nra.
Qed.

(** X4. In exact arithmetic, on a pool whose two effective reserves are
    positive, [calculateExpectedOutput] quotes nothing for a zero input and
    a positive amount for every positive input, in either direction. *)
Theorem quote_zero_and_positive :
  forall (reserves : PoolReserves Q) (isSolToTokenY : bool),
    (0 < inputReserve reserves isSolToTokenY ->
     0 < outputReserve reserves isSolToTokenY ->
     calculateExpectedOutput reserves 0 isSolToTokenY == 0
     /\ forall dx, 0 < dx ->
                   0 < calculateExpectedOutput reserves dx isSolToTokenY)%Q.
Proof.
  intros r b Hx Hy. split.
  - rewrite calculateExpectedOutput_Q, rawOutputAmount_Q, rawInputAmount_Q.
    destruct b; field; lra.
  - intros dx Hd. now apply quote_positive.
Qed.

(** X5. In exact arithmetic, on a pool with positive effective reserves, the
    quote for two positive amounts together is less than the sum of their
    separate quotes against the same snapshot. *)
Theorem split_quote_overstates :
  forall (reserves : PoolReserves Q) (isSolToTokenY : bool) (dx1 dx2 : Q),
    (0 < inputReserve reserves isSolToTokenY ->
     0 < outputReserve reserves isSolToTokenY ->
     0 < dx1 -> 0 < dx2 ->
     calculateExpectedOutput reserves (dx1 + dx2) isSolToTokenY
     < calculateExpectedOutput reserves dx1 isSolToTokenY
       + calculateExpectedOutput reserves dx2 isSolToTokenY)%Q.
Proof.
  intros r b dx1 dx2 Hx Hy H1 H2.
  rewrite !calculateExpectedOutput_Q, !rawOutputAmount_Q, !rawInputAmount_Q.
  pose proof (scale_pos b) as Hs.
  set (k := (if b then 1000000000 else 1000000)%Q) in *.
  set (x := inputReserve r b) in *. set (y := outputReserve r b) in *.
  assert (Hk1 : (0 < dx1 * k)%Q) by (apply Qmult_lt_0_compat; lra).
  assert (Hk2 : (0 < dx2 * k)%Q) by (apply Qmult_lt_0_compat; lra).
  pose proof (curve_subadditive x y (dx1 * k) (dx2 * k) Hx Hy Hk1 Hk2) as C.
  assert (E : ((dx1 + dx2) * k == dx1 * k + dx2 * k)%Q) by ring.
  rewrite E.
  set (u := (if b then 1000000 else 1000000000)%Q).
  assert (Hu : (0 < u)%Q) by (destruct b; reflexivity).
  unfold Qdiv at 1 3 5.
  assert (Hi : (0 < / u)%Q) by (apply Qinv_lt_0_compat; exact Hu).
  nra.
Qed.

(** X6. In exact arithmetic, with a nonzero effective token reserve, twice
    the raw market cap times the effective token reserve in whole tokens is
    the raw liquidity times the total supply; so when the whole supply sits
    in the pool the market cap is half the liquidity figure. *)
Theorem marketCap_liquidity_relation :
  forall (reserves : PoolReserves Q) (solPrice : Q),
    (~ effectiveTokenReserve reserves == 0 ->
     2 * calculateRawMarketCap reserves solPrice
     * (effectiveTokenReserve reserves / 1000000)
     == calculateRawLiquidity reserves solPrice * TOKEN_Y_SUPPLY
     /\ (effectiveTokenReserve reserves / 1000000 == TOKEN_Y_SUPPLY ->
         calculateRawMarketCap reserves solPrice
         == calculateRawLiquidity reserves solPrice / 2))%Q.
Proof.
  intros r p HT.
  assert (G : (2 * calculateRawMarketCap r p * (effectiveTokenReserve r / 1000000)
               == calculateRawLiquidity r p * 1000000000)%Q).
  { unfold calculateRawMarketCap, calculateRawLiquidity.
    rewrite calculatePoolPrice_Q. unfold TOKEN_Y_SUPPLY, LAMPORTS_PER_SOL. at_Q.
    change (inject_Z 1000000000) with 1000000000%Q.
    change (inject_Z 2) with 2%Q. field. exact HT. }
  change (@TOKEN_Y_SUPPLY Q _) with 1000000000%Q.
  split; [exact G|].
  intros W. rewrite W in G.
  set (m := calculateRawMarketCap r p) in *.
  set (l := calculateRawLiquidity r p) in *. clearbody m l.
  assert (X : (m == 2 * m * 1000000000 / 2000000000)%Q) by field.
  rewrite X, G. field.
Qed.

(** ** Entry price in exact arithmetic *)

Section ExactEntry.
Local Open Scope Q_scope.

Lemma calculatePositionEntryPrice_Q
    (size collateral lev : Q) (isLong : bool) (p : Q) :
  calculatePositionEntryPrice size collateral lev isLong p
  = (if isLong then collateral * lev / (size * 1000)
     else size * 1000 / (collateral * lev)) * p.
Proof. destruct isLong; reflexivity. Qed.

End ExactEntry.

(** X7. In exact arithmetic, for nonzero size, collateral and leverage, the
    long and the short entry prices of the same figures are reciprocal up to
    the SOL price: their product is [solPrice^2]. *)
Theorem entry_price_long_short_reciprocal :
  forall size collateral lev solPrice : Q,
    (~ size == 0 -> ~ collateral == 0 -> ~ lev == 0 ->
     calculatePositionEntryPrice size collateral lev true solPrice
     * calculatePositionEntryPrice size collateral lev false solPrice
     == solPrice * solPrice)%Q.
Proof.
  intros size c l p Hs Hc Hl. rewrite !calculatePositionEntryPrice_Q.
  field. repeat split; assumption.
Qed.

(** X8. In exact arithmetic, [calculatePositionEntryPrice] depends on size
    and collateral only through their ratio: scaling both by the same
    nonzero factor leaves the entry price unchanged, long or short. *)
Theorem entry_price_scale_invariant :
  forall (k size collateral lev solPrice : Q) (isLong : bool),
    (~ k == 0 -> ~ size == 0 -> ~ collateral == 0 -> ~ lev == 0 ->
     calculatePositionEntryPrice (k * size) (k * collateral) lev isLong solPrice
     == calculatePositionEntryPrice size collateral lev isLong solPrice)%Q.
Proof.
  intros k size c l p b Hk Hs Hc Hl. rewrite !calculatePositionEntryPrice_Q.
  destruct b; field; repeat split; assumption.
Qed.

(** X9. In exact arithmetic, on a pool with positive effective reserves, a
    long whose size is the raw output quoted for [collateral * leverage]
    lamports has an entry price above the spot price
    [calculatePoolPrice * solPrice]. *)
Theorem entry_price_of_quoted_long_above_spot :
  forall (reserves : PoolReserves Q) (collateral lev solPrice : Q),
    (0 < effectiveSolReserve reserves -> 0 < effectiveTokenReserve reserves ->
     0 < collateral -> 0 < lev -> 0 < solPrice ->
     let size :=
       rawOutputAmount reserves (collateral * lev / 1000000000) true in
     calculatePoolPrice reserves * solPrice
     < calculatePositionEntryPrice size collateral lev true solPrice)%Q.
Proof.
  intros r c l p HS HT Hc Hl Hp size.
  rewrite calculatePositionEntryPrice_Q, calculatePoolPrice_Q.
  subst size. rewrite rawOutputAmount_Q, rawInputAmount_Q.
  unfold inputReserve, outputReserve.
  set (S := effectiveSolReserve r) in *.
  set (T := effectiveTokenReserve r) in *.
  assert (Hcl : (0 < c * l)%Q) by (apply Qmult_lt_0_compat; lra).
  assert (E : (c * l / (T * (c * l / 1000000000 * 1000000000)
                        / (S + c * l / 1000000000 * 1000000000) * 1000) * p
               - S / 1000000000 / (T / 1000000) * p
               == c * l * p / (1000 * T))%Q)
    by (field; repeat split; lra).
  assert ((0 < c * l * p / (1000 * T))%Q).
  { apply Qlt_shift_div_l; [lra|].
    rewrite Qmult_0_l. apply Qmult_lt_0_compat; lra. }
  lra.
Qed.

(** ** Funding rate, further *)

Section ExactFundingMore.
Local Open Scope Q_scope.

Lemma perSecond_closed_Q (r : PoolReserves Q) :
  perSecond (calculateFundingRate r)
  == if Qeq_bool (totalDeltaK r) 0 || Qeq_bool (k_e r) 0 then 0
     else fundingConstantC r
          * ((totalDeltaK r / k_e r) * (totalDeltaK r / k_e r)) * 100.
Proof.
  unfold calculateFundingRate. at_Q. change (inject_Z 0) with 0.
  destruct (Qeq_bool (totalDeltaK r) 0 || Qeq_bool (k_e r) 0);
    cbn [perSecond].
  - reflexivity.
  - at_Q. rewrite Math_pow_2_Q. reflexivity.
Qed.

Lemma perSecond_withLongs (r : PoolReserves Q) (L : Q) :
  ~ L + totalDeltaKShorts r == 0 -> ~ k_e r == 0 ->
  perSecond (calculateFundingRate (withTotalDeltaKLongs r L))
  == fundingConstantC r
     * (((L + totalDeltaKShorts r) / k_e r)
        * ((L + totalDeltaKShorts r) / k_e r)) * 100.
Proof.
  intros Ht Hk. rewrite perSecond_open_Q; [reflexivity | exact Ht | exact Hk].
Qed.

Lemma inverse_square_pos (k : Q) : ~ k == 0 -> 0 < / k * / k.
Proof.
  intros Hk. destruct (Qlt_le_dec 0 k) as [P | P].
  - assert (0 < / k) by (apply Qinv_lt_0_compat; exact P). nra.
  - assert (k < 0)
      by (destruct (Qle_lt_or_eq _ _ P) as [X | X]; [exact X | contradiction]).
    assert (0 < / - k) by (apply Qinv_lt_0_compat; lra).
    assert (E : / k == - / - k) by (field; lra). rewrite E. nra.
Qed.

End ExactFundingMore.

(** X10. [calculateFundingRate] does not tell longs from shorts: exchanging
    [totalDeltaKLongs] and [totalDeltaKShorts] gives the same three rates,
    on binary64 (where the sum is commutative) and in exact arithmetic. *)
Theorem funding_rate_direction_agnostic :
  (forall reserves : PoolReserves float,
      calculateFundingRate (swapSides reserves)
      = calculateFundingRate reserves)
  /\ (forall reserves : PoolReserves Q,
         perSecond (calculateFundingRate (swapSides reserves))
         == perSecond (calculateFundingRate reserves)
         /\ perDay (calculateFundingRate (swapSides reserves))
            == perDay (calculateFundingRate reserves)
         /\ perAnnum (calculateFundingRate (swapSides reserves))
            == perAnnum (calculateFundingRate reserves))%Q.
Proof.
  split.
  - intros r. unfold calculateFundingRate.
    change (k_e (swapSides r)) with (k_e r).
    change (fundingConstantC (swapSides r)) with (fundingConstantC r).
    assert (E : totalDeltaK (swapSides r) = totalDeltaK r).
    { unfold totalDeltaK, swapSides. cbn [totalDeltaKLongs totalDeltaKShorts].
      at_float. apply Prim2SF_inj. rewrite !add_spec.
      destruct (Prim2SF (totalDeltaKShorts r)) as [sx | sx | | sx mx ex],
               (Prim2SF (totalDeltaKLongs r)) as [sy | sy | | sy my ey];
        try reflexivity; try (destruct sx, sy; reflexivity).
      unfold SF64add. cbn [SFadd]. rewrite (Z.min_comm ex ey). f_equal.
      apply Z.add_comm. }
    now rewrite E.
  - intros r. unfold calculateFundingRate.
    change (k_e (swapSides r)) with (k_e r).
    change (fundingConstantC (swapSides r)) with (fundingConstantC r).
    assert (E : (totalDeltaK (swapSides r) == totalDeltaK r)%Q).
    { unfold totalDeltaK, swapSides. cbn [totalDeltaKLongs totalDeltaKShorts].
      at_Q. ring. }
    assert (B : Qeq_bool (totalDeltaK (swapSides r)) 0
                = Qeq_bool (totalDeltaK r) 0) by (now rewrite E).
    at_Q. change (inject_Z 0) with 0%Q. rewrite B.
    destruct (Qeq_bool (totalDeltaK r) 0 || Qeq_bool (k_e r) 0);
      cbn [perSecond perDay perAnnum]; [repeat split; reflexivity|].
    at_Q. rewrite !Math_pow_2_Q, E. repeat split; reflexivity.
Qed.

(** X11. In exact arithmetic, the [perSecond] rate is zero exactly when the
    total delta-K is zero, the effective constant product is zero, or
    [fundingConstantC] is zero. *)
Theorem funding_rate_zero_iff :
  forall reserves : PoolReserves Q,
    (perSecond (calculateFundingRate reserves) == 0
     <-> (totalDeltaKLongs reserves + totalDeltaKShorts reserves == 0
          \/ effectiveSolReserve reserves * effectiveTokenReserve reserves == 0
          \/ fundingConstantC reserves == 0))%Q.
Proof.
  intros r. rewrite perSecond_closed_Q.
  change (totalDeltaKLongs r + totalDeltaKShorts r)%Q with (totalDeltaK r).
  change (effectiveSolReserve r * effectiveTokenReserve r)%Q with (k_e r).
  destruct (Qeq_bool (totalDeltaK r) 0) eqn:E1; cbn [orb].
  - apply Qeq_bool_eq in E1. split; [auto | reflexivity].
  - destruct (Qeq_bool (k_e r) 0) eqn:E2.
    + apply Qeq_bool_eq in E2. split; [auto | reflexivity].
    + apply Qeq_bool_neq in E1. apply Qeq_bool_neq in E2.
      set (t := totalDeltaK r) in *. set (k := k_e r) in *.
      split.
      * intros H. right. right.
        assert (Hq : ~ (t / k == 0)%Q).
        { intros Z. apply E1.
          assert (X : (t == t / k * k)%Q) by (field; exact E2).
          rewrite X, Z. ring. }
        assert (H1 : (fundingConstantC r * (t / k * (t / k)) == 0)%Q) by lra.
        apply Qmult_integral in H1. destruct H1 as [H1 | H1]; [exact H1|].
        apply Qmult_integral in H1. tauto.
      * intros [H | [H | H]]; [contradiction | contradiction |].
        rewrite H. ring.
Qed.

(** X12. In exact arithmetic, when the short-circuit applies neither before
    nor after, replacing [totalDeltaKLongs] by its double multiplies
    [perSecond] by [((2 L + S) / (L + S))^2], with [L] and [S] the long and
    short aggregates. *)
Theorem doubling_longs_factor :
  forall reserves : PoolReserves Q,
    (~ totalDeltaKLongs reserves + totalDeltaKShorts reserves == 0 ->
     ~ 2 * totalDeltaKLongs reserves + totalDeltaKShorts reserves == 0 ->
     ~ effectiveSolReserve reserves * effectiveTokenReserve reserves == 0 ->
     perSecond (calculateFundingRate (doubleLongs reserves))
     == ((2 * totalDeltaKLongs reserves + totalDeltaKShorts reserves)
         / (totalDeltaKLongs reserves + totalDeltaKShorts reserves)) ^ 2
        * perSecond (calculateFundingRate reserves))%Q.
Proof.
  intros r H1 H2 Hk.
  assert (Hk' : ~ (k_e r == 0)%Q) by exact Hk.
  assert (H1' : ~ (totalDeltaK r == 0)%Q) by exact H1.
  unfold doubleLongs. at_Q. change (inject_Z 2) with 2%Q.
  rewrite (perSecond_withLongs r _ H2 Hk').
  rewrite (perSecond_open_Q r H1' Hk').
  change (totalDeltaK r) with (totalDeltaKLongs r + totalDeltaKShorts r)%Q in *.
  set (k := k_e r) in *. field. split; assumption.
Qed.

(** X13. In exact arithmetic, with a positive [fundingConstantC], a nonzero
    effective constant product and non-negative aggregates, a larger
    [totalDeltaKLongs] gives a strictly larger [perSecond] rate. *)
Theorem funding_rate_increases_with_exposure :
  forall (reserves : PoolReserves Q) (L1 L2 : Q),
    (0 < fundingConstantC reserves ->
     ~ effectiveSolReserve reserves * effectiveTokenReserve reserves == 0 ->
     0 <= totalDeltaKShorts reserves -> 0 <= L1 -> L1 < L2 ->
     perSecond (calculateFundingRate (withTotalDeltaKLongs reserves L1))
     < perSecond (calculateFundingRate (withTotalDeltaKLongs reserves L2)))%Q.
Proof.
  intros r L1 L2 HC Hk HS H1 H12.
  assert (Hk' : ~ (k_e r == 0)%Q) by exact Hk.
  set (S := totalDeltaKShorts r) in *.
  assert (Ht2 : ~ (L2 + S == 0)%Q) by lra.
  rewrite (perSecond_withLongs r L2 Ht2 Hk'). fold S.
  set (k := k_e r) in *.
  pose proof (inverse_square_pos k Hk') as Hik.
  assert (G : forall t, (fundingConstantC r * (t / k * (t / k)) * 100
                         == 100 * fundingConstantC r * (/ k * / k) * (t * t))%Q)
    by (intros t; field; exact Hk').
  rewrite G.
  set (c := (100 * fundingConstantC r * (/ k * / k))%Q).
  assert (Hc : (0 < c)%Q)
    by (subst c; apply Qmult_lt_0_compat; [lra | exact Hik]).
  assert (M : ((L1 + S) * (L1 + S) < (L2 + S) * (L2 + S))%Q) by nra.
  destruct (Qeq_dec (L1 + S) 0) as [Z | NZ].
  - assert (E0 : (perSecond (calculateFundingRate (withTotalDeltaKLongs r L1))
                  == 0)%Q).
    { rewrite perSecond_closed_Q.
      change (totalDeltaK (withTotalDeltaKLongs r L1)) with (L1 + S)%Q.
      apply Qeq_bool_iff in Z. now rewrite Z. }
    rewrite E0. assert ((0 < (L2 + S) * (L2 + S))%Q) by nra. nra.
  - rewrite (perSecond_withLongs r L1 NZ Hk'). fold S k. rewrite G. fold c.
    nra.
Qed.

(** ** Position profit and loss, further *)

Section ExactPnLMore.
Local Open Scope Q_scope.

Lemma outputUsd_short_Q (pos : Position Q) (r : PoolReserves Q) (p : Q) :
  isLong pos = false ->
  outputUsd pos r p
  = (calculateExpectedOutput r (rawSize pos / 1000000000) true
     - rawCollateral pos / 1000000 * (leverage pos - 1))
    * calculatePoolPrice r * p.
Proof. intros L. unfold outputUsd, positionUsd. now rewrite L. Qed.

Lemma scaled_nonzero (c k : Q) : ~ c == 0 -> ~ k == 0 -> ~ c / k == 0.
Proof.
  intros Hc Hk E. apply Hc.
  assert (X : c == c / k * k) by (field; exact Hk). rewrite X, E. ring.
Qed.

Lemma pnl_long_Q (pos : Position Q) (r : PoolReserves Q) (p : Q) :
  isLong pos = true -> ~ rawCollateral pos == 0 -> ~ p == 0 ->
  calculatePositionPnL pos r p
  == (calculateExpectedOutput r (rawSize pos / 1000000) false
      / (rawCollateral pos / 1000000000) - leverage pos) * 100.
Proof.
  intros L Hc Hp.
  assert (Hcu : ~ collateralUsd pos r p == 0).
  { rewrite collateralUsd_Q, L. intros E. apply Qmult_integral in E.
    destruct E as [E | E]; [| tauto].
    revert E. apply scaled_nonzero; [exact Hc | discriminate]. }
  rewrite calculatePositionPnL_unfold. at_Q. change (inject_Z 0) with 0.
  rewrite (Qeq_bool_false _ _ Hcu), outputUsd_long_Q by exact L.
  rewrite collateralUsd_Q, L. change (inject_Z 100) with 100.
  set (e := calculateExpectedOutput r (rawSize pos / 1000000) false).
  field. repeat split; assumption.
Qed.

Lemma pnl_short_Q (pos : Position Q) (r : PoolReserves Q) (p : Q) :
  isLong pos = false -> ~ rawCollateral pos == 0 -> ~ p == 0 ->
  ~ effectiveSolReserve r == 0 -> ~ effectiveTokenReserve r == 0 ->
  calculatePositionPnL pos r p
  == (calculateExpectedOutput r (rawSize pos / 1000000000) true
      / (rawCollateral pos / 1000000) - leverage pos) * 100.
Proof.
  intros L Hc Hp HS HT.
  assert (Hpp : ~ calculatePoolPrice r == 0).
  { rewrite calculatePoolPrice_Q.
    apply scaled_nonzero; apply scaled_nonzero; trivial; discriminate. }
  assert (Hcu : ~ collateralUsd pos r p == 0).
  { rewrite collateralUsd_Q, L. intros E.
    apply Qmult_integral in E. destruct E as [E | E]; [| tauto].
    apply Qmult_integral in E. destruct E as [E | E]; [| tauto].
    revert E. apply scaled_nonzero; [exact Hc | discriminate]. }
  rewrite calculatePositionPnL_unfold. at_Q. change (inject_Z 0) with 0.
  rewrite (Qeq_bool_false _ _ Hcu), outputUsd_short_Q by exact L.
  rewrite collateralUsd_Q, L. change (inject_Z 100) with 100.
  set (e := calculateExpectedOutput r (rawSize pos / 1000000000) true).
  set (pp := calculatePoolPrice r) in *.
  field. repeat split; assumption.
Qed.

End ExactPnLMore.

(** X14. In exact arithmetic, with nonzero collateral and SOL price (and, for
    a short, nonzero effective reserves), [calculatePositionPnL] is
    [(expected / collateral - leverage) * 100], with [expected] the swap
    output for the position's size and both in human units of the
    collateral's asset. *)
Theorem pnl_closed_form :
  forall (pos : Position Q) (reserves : PoolReserves Q) (solPrice : Q),
    (~ rawCollateral pos == 0 -> ~ solPrice == 0 ->
     (isLong pos = true ->
      calculatePositionPnL pos reserves solPrice
      == (calculateExpectedOutput reserves (rawSize pos / 1000000) false
          / (rawCollateral pos / 1000000000) - leverage pos) * 100)
     /\ (isLong pos = false ->
         ~ effectiveSolReserve reserves == 0 ->
         ~ effectiveTokenReserve reserves == 0 ->
         calculatePositionPnL pos reserves solPrice
         == (calculateExpectedOutput reserves (rawSize pos / 1000000000) true
             / (rawCollateral pos / 1000000) - leverage pos) * 100))%Q.
Proof.
  intros pos r p Hc Hp. split.
  - intros L. now apply pnl_long_Q.
  - intros L HS HT. now apply pnl_short_Q.
Qed.

(** X15. In exact arithmetic, the P&L percentage does not depend on the
    SOL/USD price: any two nonzero prices give the same result (for a short,
    on a pool with nonzero effective reserves). *)
Theorem pnl_independent_of_sol_price :
  forall (pos : Position Q) (reserves : PoolReserves Q) (p1 p2 : Q),
    (~ rawCollateral pos == 0 -> ~ p1 == 0 -> ~ p2 == 0 ->
     (isLong pos = true
      \/ (~ effectiveSolReserve reserves == 0
          /\ ~ effectiveTokenReserve reserves == 0)) ->
     calculatePositionPnL pos reserves p1
     == calculatePositionPnL pos reserves p2)%Q.
Proof.
  intros pos r p1 p2 Hc H1 H2 G.
  destruct (isLong pos) eqn:L.
  - now rewrite !pnl_long_Q.
  - destruct G as [G | [HS HT]]; [discriminate|].
    now rewrite !pnl_short_Q.
Qed.

(** X16. In exact arithmetic, for a long with positive collateral on a pool
    with positive effective reserves, the P&L is [-100 * leverage] percent
    when the size is zero and strictly above that for every positive
    size. *)
Theorem pnl_long_floor :
  forall (pos : Position Q) (reserves : PoolReserves Q) (solPrice : Q),
    (isLong pos = true ->
     0 < effectiveSolReserve reserves -> 0 < effectiveTokenReserve reserves ->
     0 < rawCollateral pos -> ~ solPrice == 0 ->
     (rawSize pos == 0 ->
      calculatePositionPnL pos reserves solPrice == - (100) * leverage pos)
     /\ (0 < rawSize pos ->
         - (100) * leverage pos < calculatePositionPnL pos reserves solPrice))%Q.
Proof.
  intros pos r p L HS HT Hc Hp.
  assert (Hc' : ~ (rawCollateral pos == 0)%Q) by lra.
  pose proof (pnl_long_Q pos r p L Hc' Hp) as A.
  assert (Hcs : (0 < rawCollateral pos / 1000000000)%Q)
    by (apply Qlt_shift_div_l; lra).
  split.
  - intros Hz. rewrite A.
    assert (E : (calculateExpectedOutput r (rawSize pos / 1000000) false
                 == 0)%Q).
    { rewrite quote_token_to_sol. rewrite Hz. field. lra. }
    rewrite E. field. lra.
  - intros Hz. rewrite A.
    assert (Hd : (0 < rawSize pos / 1000000)%Q)
      by (apply Qlt_shift_div_l; lra).
    pose proof (quote_positive r (rawSize pos / 1000000) false HT HS Hd) as Q.
    set (e := calculateExpectedOutput r (rawSize pos / 1000000) false) in *.
    assert ((0 < e / (rawCollateral pos / 1000000000))%Q)
      by (apply Qlt_shift_div_l; lra).
    lra.
Qed.

(** ** Strings of digits *)

Lemma length_app (a b : string) :
  String.length (a ++ b) = (String.length a + String.length b)%nat.
Proof. induction a as [| c a IH]; cbn; [reflexivity | now rewrite IH]. Qed.

Lemma length_zeros (k : nat) : String.length (zeros k) = k.
Proof. induction k as [| k IH]; cbn; [reflexivity | now rewrite IH]. Qed.

Lemma length_substring (s : string) (n m : nat) :
  (n + m <= String.length s)%nat -> String.length (substring n m s) = m.
Proof.
  revert n m. induction s as [| c s IH]; intros n m H; cbn in H.
  - assert (n = 0 /\ m = 0)%nat as [-> ->] by lia. reflexivity.
  - destruct n as [| n]; cbn.
    + destruct m as [| m]; cbn; [reflexivity|]. rewrite IH by lia. reflexivity.
    + apply IH. lia.
Qed.

Lemma allDigits_app (a b : string) :
  allDigits (a ++ b) = allDigits a && allDigits b.
Proof.
  induction a as [| c a IH]; cbn; [reflexivity|].
  now rewrite IH, andb_assoc.
Qed.

Lemma allDigits_zeros (k : nat) : allDigits (zeros k) = true.
Proof. induction k as [| k IH]; cbn; [reflexivity | exact IH]. Qed.

Lemma allDigits_substring (s : string) (n m : nat) :
  allDigits s = true -> allDigits (substring n m s) = true.
Proof.
  revert n m. induction s as [| c s IH]; intros n m H.
  - destruct n, m; reflexivity.
  - cbn in H. apply andb_prop in H. destruct H as [Hc Hs].
    destruct n as [| n]; cbn.
    + destruct m as [| m]; cbn; [reflexivity|]. now rewrite Hc, IH.
    + now apply IH.
Qed.

Lemma allDigits_uint (d : Decimal.uint) :
  allDigits (NilEmpty.string_of_uint d) = true.
Proof. induction d; cbn; trivial. Qed.

Lemma allDigits_digits (n : Z) : allDigits (digits n) = true.
Proof.
  unfold digits, NilZero.string_of_uint.
  destruct (N.to_uint (Z.to_N n)) eqn:E;
    try (rewrite <- E; apply allDigits_uint); reflexivity.
Qed.

Lemma fixed_notation_shape (n : Z) (f : nat) :
  exists a b,
    fixed_notation n (S f) = a ++ "." ++ b
    /\ (1 <= String.length a)%nat /\ String.length b = S f
    /\ allDigits a = true /\ allDigits b = true.
Proof.
  unfold fixed_notation.
  set (m0 := digits n).
  set (m := if (String.length m0 <=? S f)%nat
            then zeros (S f + 1 - String.length m0) ++ m0 else m0).
  assert (Hm : allDigits m = true).
  { subst m. destruct (String.length m0 <=? S f)%nat.
    - rewrite allDigits_app, allDigits_zeros. apply allDigits_digits.
    - apply allDigits_digits. }
  assert (Hl : (S f + 1 <= String.length m)%nat).
  { subst m. destruct (Nat.leb_spec (String.length m0) (S f)).
    - rewrite length_app, length_zeros. lia.
    - lia. }
  exists (substring 0 (String.length m - S f) m),
         (substring (String.length m - S f) (S f) m).
  repeat split.
  - rewrite length_substring; lia.
  - apply length_substring. lia.
  - now apply allDigits_substring.
  - now apply allDigits_substring.
Qed.

(** ** Binary64: signs, zero denominators and non-finite values *)

Lemma append_assoc' (a b c : string) : (a ++ b) ++ c = a ++ b ++ c.
Proof. induction a as [| x a IH]; cbn; [reflexivity | now rewrite IH]. Qed.

Section Binary64More.
Local Open Scope float_scope.





Lemma mul_nonfinite_l (a b : float) :
  SFnonfinite (Prim2SF a) -> SFnonfinite (Prim2SF (a * b)).
Proof.
  unfold SFnonfinite. rewrite mul_spec. intros [-> | [s ->]].
  - now left.
  - destruct (Prim2SF b) as [sb | sb | | sb mb eb]; cbn; eauto.
Qed.

Lemma mul_nonfinite_r (a b : float) (s : bool) (m : positive) (e : Z) :
  Prim2SF a = S754_finite s m e ->
  SFnonfinite (Prim2SF b) -> SFnonfinite (Prim2SF (a * b)).
Proof.
  unfold SFnonfinite. rewrite mul_spec. intros -> [-> | [sb ->]]; cbn; eauto.
Qed.

Lemma div_nonfinite_den (a z : float) :
  (z =? 0) = true \/ Prim2SF z = S754_nan -> SFnonfinite (Prim2SF (a / z)).
Proof.
  intros [Hz | Hz].
  - apply eqb_zero_inv in Hz. destruct Hz as [s Hz].
    exact (div_by_zero a z s Hz).
  - left. rewrite div_spec, Hz. now destruct (Prim2SF a).
Qed.

Lemma mul_zero_l (z b : float) :
  (z =? 0) = true -> ((z * b) =? 0) = true \/ Prim2SF (z * b) = S754_nan.
Proof.
  intros Hz. apply eqb_zero_inv in Hz. destruct Hz as [s Hz].
  rewrite FloatAxioms.eqb_spec, SF_zero, mul_spec, Hz.
  destruct (Prim2SF b) as [sb | sb | | sb mb eb]; cbn; auto.
Qed.

Lemma leb_nan (c v : float) : Prim2SF v = S754_nan -> (c <=? v) = false.
Proof. intros E. rewrite leb_spec, E. now destruct (Prim2SF c). Qed.

Lemma leb_finite_inf (c v : float) (s : bool) (mc : positive) (ec : Z) :
  Prim2SF c = S754_finite false mc ec -> Prim2SF v = S754_infinity s ->
  (c <=? v) = negb s.
Proof. intros Ec E. rewrite leb_spec, Ec, E. now destruct s. Qed.

Lemma supply_SF :
  exists m e, Prim2SF TOKEN_Y_SUPPLY = S754_finite false m e.
Proof. eexists; eexists. vm_compute. reflexivity. Qed.

Lemma formatNumber_nonfinite (v : float) :
  SFnonfinite (Prim2SF v) ->
  formatNumber v = "$NaN"%string \/ formatNumber v = "$InfinityB"%string
  \/ formatNumber v = "$-Infinity"%string.
Proof.
  intros [E | [s E]]; rewrite formatNumber_prefix, formatTokenAmount_bands.
  - left. rewrite !(leb_nan _ v E). unfold toFixed_float. now rewrite E.
  - rewrite (leb_finite_inf 1e9 v s _ _ eq_refl E),
            (leb_finite_inf 1e6 v s _ _ eq_refl E),
            (leb_finite_inf 1e3 v s _ _ eq_refl E).
    destruct s; cbn [negb].
    + right. right. unfold toFixed_float. now rewrite E.
    + right. left. unfold toFixed_float. rewrite div_spec, E. reflexivity.
Qed.

End Binary64More.

(** X17. On binary64, when the effective token reserve is zero (of either
    sign), [calculateMarketCap] prints no number: the result is ["$NaN"],
    ["$InfinityB"] or ["$-Infinity"], whatever the other reserves and the
    SOL price are. *)
Theorem marketCap_drained_pool :
  forall (r : PoolReserves float) (p : float),
    (effectiveTokenReserve r =? 0)%float = true ->
    calculateMarketCap r p = "$NaN"%string
    \/ calculateMarketCap r p = "$InfinityB"%string
    \/ calculateMarketCap r p = "$-Infinity"%string.
Proof.
  intros r p Hz. unfold calculateMarketCap. apply formatNumber_nonfinite.
  unfold calculateRawMarketCap. at_float.
  apply mul_nonfinite_l.
  destruct supply_SF as (ms & es & Esup).
  apply (mul_nonfinite_r _ _ _ _ _ Esup).
  destruct token_scale_SF as (m & e & Escale).
  apply eqb_zero_inv in Hz. destruct Hz as [s Es].
  unfold calculatePoolPrice. at_float.
  exact (div_by_zero _ _ _ (div_zero_finite _ _ _ _ _ _ Es Escale)).
Qed.

(** X18. [calculatePositionEntryPrice] has no guard against a zero
    denominator: on binary64 a long of size zero, and a short of collateral
    zero, get an entry price that is NaN or infinite, whatever the other
    arguments are. *)
Theorem entry_price_unguarded :
  forall size collateral lev p : float,
    ((size =? 0)%float = true ->
     is_finite (calculatePositionEntryPrice size collateral lev true p) = false)
    /\ ((collateral =? 0)%float = true ->
        is_finite (calculatePositionEntryPrice size collateral lev false p) = false).
Proof.
  intros size c l p. split; intros Hz;
    unfold calculatePositionEntryPrice; at_float.
  - refine (proj1 (nonfinite_SF _ (mul_nonfinite_l _ p _))).
    apply div_nonfinite_den. exact (mul_zero_l size _ Hz).
  - refine (proj1 (nonfinite_SF _ (mul_nonfinite_l _ p _))).
    apply div_nonfinite_den. exact (mul_zero_l c l Hz).
Qed.


(** X20. On binary64, when the scaled value [bandQuotient v] is finite and
    below 1e21 in magnitude, [formatTokenAmount v] is an optional minus
    sign, at least one digit, a point, exactly two digits and the band's
    suffix; [formatNumber v] is the same after a dollar sign. *)
Theorem format_two_decimals :
  forall v : float,
    is_finite (bandQuotient v) = true ->
    (1e21 <=? abs (bandQuotient v))%float = false ->
    exists sign a b : string,
      (sign = EmptyString \/ sign = "-"%string)
      /\ formatTokenAmount v = (sign ++ a ++ "." ++ b ++ bandSuffix v)%string
      /\ formatNumber v = ("$" ++ sign ++ a ++ "." ++ b ++ bandSuffix v)%string
      /\ (1 <= String.length a)%nat /\ String.length b = 2%nat
      /\ allDigits a = true /\ allDigits b = true.
Proof.
  intros v F B.
  assert (T : exists sign n,
             (sign = EmptyString \/ sign = "-"%string)
             /\ toFixed_float (bandQuotient v) 2
                = (sign ++ fixed_notation n 2)%string).
  { unfold toFixed_float.
    destruct (is_finite_SF _ F) as [[s E] | (s & m & e & E)]; rewrite E.
    - exists EmptyString, 0%Z. auto.
    - rewrite B.
      exists (if s then "-"%string else EmptyString), (nearest_scaled m e 2).
      split; [destruct s; auto | reflexivity]. }
  destruct T as (sign & n & Hs & T).
  destruct (fixed_notation_shape n 1) as (a & b & Hab & La & Lb & Da & Db).
  exists sign, a, b.
  assert (E : formatTokenAmount v
              = (sign ++ a ++ "." ++ b ++ bandSuffix v)%string).
  { rewrite formatTokenAmount_band, T, Hab.
    rewrite !append_assoc'. reflexivity. }
  repeat split; trivial.
  now rewrite formatNumber_prefix, E.
Qed.

(** ** The launch form *)

Lemma sanitizeAmount_allowed (s : string) :
  allAmountChars (sanitizeAmount s) = true.
Proof.
  induction s as [| c s IH]; cbn; [reflexivity|].
  destruct (isAmountChar c) eqn:E; cbn; [now rewrite E | exact IH].
Qed.

Lemma sanitizeAmount_fixed (s : string) :
  allAmountChars s = true -> sanitizeAmount s = s.
Proof.
  induction s as [| c s IH]; cbn; [reflexivity|].
  intros H. apply andb_prop in H. destruct H as [Hc Hs].
  now rewrite Hc, IH.
Qed.

Lemma sanitizeAmount_app (a b : string) :
  sanitizeAmount (a ++ b) = sanitizeAmount a ++ sanitizeAmount b.
Proof.
  induction a as [| c a IH]; cbn; [reflexivity|].
  destruct (isAmountChar c); cbn; now rewrite IH.
Qed.

Lemma sanitizeAmount_length (s : string) :
  (String.length (sanitizeAmount s) <= String.length s)%nat.
Proof.
  induction s as [| c s IH]; cbn; [lia|].
  destruct (isAmountChar c); cbn; lia.
Qed.

(** X21. The amount filter of the launch form, [replace(/[^0-9.]/g, '')]:
    its result holds only digits and points; it is idempotent; it leaves a
    string unchanged exactly when the string holds only digits and points;
    it never lengthens; and it distributes over concatenation.  It does not
    limit the number of points. *)
Theorem sanitizeAmount_keeps_digits_and_dots :
  forall s : string,
    (allAmountChars (sanitizeAmount s) = true
     /\ sanitizeAmount (sanitizeAmount s) = sanitizeAmount s
     /\ (sanitizeAmount s = s <-> allAmountChars s = true)
     /\ (String.length (sanitizeAmount s) <= String.length s)%nat
     /\ forall t, sanitizeAmount (s ++ t) = sanitizeAmount s ++ sanitizeAmount t)
    /\ sanitizeAmount "1.2.3" = "1.2.3".
Proof.
  intros s. split; [| reflexivity].
  pose proof (sanitizeAmount_allowed s) as A.
  split; [exact A|]. split; [now apply sanitizeAmount_fixed|].
  split; [split; [intros E; now rewrite <- E | apply sanitizeAmount_fixed]|].
  split; [apply sanitizeAmount_length | apply sanitizeAmount_app].
Qed.


Section SubmitProperties.
Context {File Transaction Keypair Signature Wallet : Type}.
Variable parseFloat : string -> float.
Implicit Types (env : SubmitEnv File Transaction Keypair Signature Wallet)
               (form : LaunchForm File) (wallet : Wallet).

Lemma uploadMetadata_cases env form :
  (uploadMetadata env form = ([], inl (JsString EmptyString))
   /\ formImage form = None)
  \/ (exists image error uri,
         formImage form = Some image
         /\ fetchUpload env (uploadFormData form image)
            = FetchResponse true (BodyData error uri)
         /\ accepted (fetchUpload env (uploadFormData form image)) = true
         /\ uploadMetadata env form
            = ([Fetch "/api/upload-ipfs" (uploadFormData form image)],
               inl uri))
  \/ (exists image t,
         formImage form = Some image
         /\ accepted (fetchUpload env (uploadFormData form image)) = false
         /\ uploadMetadata env form
            = ([Fetch "/api/upload-ipfs" (uploadFormData form image)],
               inr t)).
Proof.
  unfold uploadMetadata. destruct (formImage form) as [image |].
  - right. cbv zeta.
    destruct (fetchUpload env (uploadFormData form image))
      as [| [|] [| | error uri]] eqn:E; cbn [negb].
    1-3, 5-7: right; exists image; eexists; rewrite E;
      repeat split; reflexivity.
    destruct (truthy error) eqn:Te; cbn [negb].
    + right. exists image. eexists. rewrite E. cbn [accepted].
      rewrite Te. repeat split; reflexivity.
    + destruct (truthy uri) eqn:Tu; cbn [negb].
      * left. exists image, error, uri. rewrite E. cbn [accepted].
        rewrite Te, Tu. repeat split; reflexivity.
      * right. exists image. eexists. rewrite E. cbn [accepted].
        rewrite Te, Tu. repeat split; reflexivity.
  - left. split; reflexivity.
Qed.

Lemma launch_cases env form wallet uri :
  let (effects, thrown) := launch parseFloat env form wallet uri in
  existsb isSetIsSubmitting effects = false
  /\ existsb isFetch effects = false
  /\ existsb isToastError effects = false
  /\ (forall e u, In e effects -> metadataOf e = Some u -> u = uri)
  /\ (existsb isRouterPush effects = true <-> launched parseFloat env form wallet uri)
  /\ (existsb isRouterPush effects = true -> thrown = None).
Proof.
  unfold launch, launched.
  set (params := {| lpName := tokenName form |}).
  assert (M : forall (l : list (Effect File Transaction Keypair Signature Wallet)) e u,
             (forall x, In x l -> x = CreateLaunchToken params \/ metadataOf x = None) ->
             In e l -> metadataOf e = Some u -> u = uri).
  { intros l e u H Hin Hm. destruct (H e Hin) as [-> | N]; [| congruence].
    cbn in Hm. congruence. }
  destruct (createLaunchTokenTransaction env params) as [[tx kp] |] eqn:C.
  - destruct (sendTransactionWithPriorityFee env tx kp) as [sig |] eqn:S.
    + destruct (showTransactionToast env sig) as [[|] |] eqn:T.
      * repeat split; try reflexivity.
        -- intros e u. apply M. intros x [<- | [<- | [<- | [<- | []]]]]; auto.
        -- exists tx, kp, sig. auto.
      * repeat split; try reflexivity; try discriminate.
        -- intros e u. apply M. intros x [<- | [<- | [<- | []]]]; auto.
        -- intros (tx' & kp' & sig' & C' & S' & T').
           assert (tx' = tx /\ kp' = kp) as [-> ->] by (split; congruence).
           assert (sig' = sig) as -> by congruence. congruence.
      * repeat split; try reflexivity; try discriminate.
        -- intros e u. apply M. intros x [<- | [<- | [<- | []]]]; auto.
        -- intros (tx' & kp' & sig' & C' & S' & T').
           assert (tx' = tx /\ kp' = kp) as [-> ->] by (split; congruence).
           assert (sig' = sig) as -> by congruence. congruence.
    + repeat split; try reflexivity; try discriminate.
      * intros e u. apply M. intros x [<- | [<- | []]]; auto.
      * intros (tx' & kp' & sig' & C' & S' & T').
        assert (tx' = tx /\ kp' = kp) as [-> ->] by (split; congruence).
        congruence.
  - repeat split; try reflexivity; try discriminate.
    + intros e u. apply M. intros x [<- | []]; auto.
    + intros (tx' & kp' & sig' & C' & S' & T'). congruence.
Qed.


Lemma handleSubmit_shape env form wallet :
  exists tried thrown,
    handleSubmit parseFloat env form wallet
    = ([PreventDefault; SetIsSubmitting true] ++ tried
       ++ match thrown with Some t => [ToastLaunchError t] | None => [] end
       ++ [SetIsSubmitting false])%list
    /\ ((exists t, snd (uploadMetadata env form) = inr t
                   /\ tried = fst (uploadMetadata env form)
                   /\ thrown = Some t)
        \/ (exists uri, snd (uploadMetadata env form) = inl uri
                        /\ tried = (fst (uploadMetadata env form)
                                    ++ fst (launch parseFloat env form wallet uri))%list
                        /\ thrown = snd (launch parseFloat env form wallet uri))).
Proof.
  unfold handleSubmit.
  destruct (uploadMetadata env form) as [effects [uri | t]]; cbn [fst snd].
  - destruct (launch parseFloat env form wallet uri) as [more thrown] eqn:L.
    exists (effects ++ more)%list, thrown. split; [reflexivity|].
    right. exists uri. rewrite L. repeat split; reflexivity.
  - exists effects, (Some t). split; [reflexivity|].
    left. exists t. repeat split; reflexivity.
Qed.


Lemma existsb_single {A} (p : A -> bool) (x : A) : existsb p [x] = p x.
Proof. cbn. apply orb_false_r. Qed.

End SubmitProperties.

(** X23. Every run of [handleSubmit], whatever the external calls do: starts
    with [preventDefault] and [setIsSubmitting(true)], ends with
    [setIsSubmitting(false)], and touches [isSubmitting] nowhere in
    between; calls [router.push] exactly when the upload (if there is an
    image) was accepted and the three transaction calls went through with a
    successful toast; and a run that navigates shows no error toast. *)
Theorem handleSubmit_resets_and_navigates :
  forall (File Transaction Keypair Signature Wallet : Type)
         (parseFloat : string -> float)
         (env : SubmitEnv File Transaction Keypair Signature Wallet)
         (form : LaunchForm File) (wallet : Wallet),
    (exists mid,
        handleSubmit parseFloat env form wallet
        = (PreventDefault :: SetIsSubmitting true :: mid
           ++ [SetIsSubmitting false])%list
        /\ existsb isSetIsSubmitting mid = false)
    /\ (existsb isRouterPush (handleSubmit parseFloat env form wallet) = true
        <-> (formImage form = None
             /\ launched parseFloat env form wallet (JsString EmptyString))
            \/ (exists image error uri,
                   formImage form = Some image
                   /\ fetchUpload env (uploadFormData form image)
                      = FetchResponse true (BodyData error uri)
                   /\ truthy error = false /\ truthy uri = true
                   /\ launched parseFloat env form wallet uri))
    /\ (existsb isRouterPush (handleSubmit parseFloat env form wallet) = true
        -> existsb isToastError (handleSubmit parseFloat env form wallet)
           = false).
Proof.
  intros File Transaction Keypair Signature Wallet parseFloat env form wallet.
  destruct (handleSubmit_shape parseFloat env form wallet)
    as (tried & thrown & -> & H).
  assert (R : existsb isRouterPush
                ([PreventDefault; SetIsSubmitting true] ++ tried
                 ++ match thrown with
                    | Some t => [ToastLaunchError t]
                    | None => []
                    end ++ [SetIsSubmitting false])%list
              = existsb (isRouterPush (File:=File) (Transaction:=Transaction)
                           (Keypair:=Keypair) (Signature:=Signature)
                           (Wallet:=Wallet)) tried).
  { rewrite !existsb_app. cbn [existsb isRouterPush orb].
    destruct thrown; cbn; now rewrite !orb_false_r. }
  rewrite R. clear R.
  destruct (uploadMetadata_cases env form)
    as [[U N] | [(image & error & uri & I & F & A & U)
                | (image & t & I & A & U)]];
    rewrite U in H; cbn [fst snd] in H;
    destruct H as [(t' & E & -> & ->) | (uri' & E & -> & ->)];
    try discriminate.
  - injection E as <-.
    pose proof (launch_cases parseFloat env form wallet (JsString EmptyString))
      as L.
    destruct (launch parseFloat env form wallet (JsString EmptyString))
      as [more thrown]. cbn [fst snd app].
    destruct L as (L1 & L2 & L3 & L4 & L5 & L6).
    split; [| split].
    + exists (more ++ match thrown with
                      | Some t => [ToastLaunchError t]
                      | None => []
                      end)%list.
      split; [now rewrite <- app_assoc|].
      rewrite existsb_app, L1. now destruct thrown.
    + rewrite L5. split.
      * intros X. left. auto.
      * intros [[_ X] | (image & error & uri & I & _)]; [exact X | congruence].
    + intros X. rewrite (L6 X). cbn. rewrite existsb_app, L3. reflexivity.
  - injection E as <-.
    pose proof (launch_cases parseFloat env form wallet uri) as L.
    destruct (launch parseFloat env form wallet uri) as [more thrown].
    cbn [fst snd].
    destruct L as (L1 & L2 & L3 & L4 & L5 & L6).
    rewrite F in A. cbn [accepted] in A. apply andb_prop in A.
    destruct A as [A1 A2]. apply negb_true_iff in A1.
    split; [| split].
    + exists (Fetch "/api/upload-ipfs" (uploadFormData form image)
              :: more ++ match thrown with
                         | Some t => [ToastLaunchError t]
                         | None => []
                         end)%list.
      split; [cbn [app]; now rewrite <- app_assoc|].
      cbn [existsb isSetIsSubmitting orb]. rewrite existsb_app, L1.
      now destruct thrown.
    + rewrite existsb_app. cbn [existsb isRouterPush orb]. rewrite L5. split.
      * intros X. right. exists image, error, uri. auto.
      * intros [[N _] | (image' & error' & uri' & I' & F' & _ & _ & X)];
          [congruence|].
        assert (image' = image) as -> by congruence.
        rewrite F in F'. injection F' as <- <-. exact X.
    + rewrite existsb_app. cbn [existsb isRouterPush orb].
      intros X. rewrite (L6 X). cbn [existsb isToastError orb app].
      rewrite !existsb_app, L3. reflexivity.
  - split; [| split].
    + exists [Fetch "/api/upload-ipfs" (uploadFormData form image);
              ToastLaunchError t'].
      split; reflexivity.
    + cbn [existsb isRouterPush orb]. split; [discriminate|].
      intros [[N _] | (image' & error' & uri' & I' & F' & T1 & T2 & _)];
        [congruence|].
      assert (image' = image) as -> by congruence.
      rewrite F' in A. cbn [accepted] in A. rewrite T1, T2 in A. discriminate.
    + cbn [existsb isRouterPush orb]. discriminate.
Qed.

(** X24. With an image chosen and an upload response that is not accepted
    (rejected, not [ok], unreadable body, a truthy [error], or a falsy
    [metadataUri]), [handleSubmit] does exactly five things: prevents the
    default, sets the submitting flag, posts to [/api/upload-ipfs], shows
    the error toast, and clears the flag.  No transaction is created. *)
Theorem handleSubmit_failed_upload_stops :
  forall (File Transaction Keypair Signature Wallet : Type)
         (parseFloat : string -> float)
         (env : SubmitEnv File Transaction Keypair Signature Wallet)
         (form : LaunchForm File) (wallet : Wallet) (image : File),
    formImage form = Some image ->
    accepted (fetchUpload env (uploadFormData form image)) = false ->
    exists thrown,
      handleSubmit parseFloat env form wallet
      = [PreventDefault; SetIsSubmitting true;
         Fetch "/api/upload-ipfs" (uploadFormData form image);
         ToastLaunchError thrown; SetIsSubmitting false].
Proof.
  intros File Transaction Keypair Signature Wallet parseFloat env form wallet
         image I A.
  destruct (handleSubmit_shape parseFloat env form wallet)
    as (tried & thrown & -> & H).
  destruct (uploadMetadata_cases env form)
    as [[U N] | [(image' & error & uri & I' & F & A' & U)
                | (image' & t & I' & A' & U)]].
  - congruence.
  - assert (image' = image) as -> by congruence. congruence.
  - assert (image' = image) as -> by congruence.
    rewrite U in H. cbn [fst snd] in H.
    destruct H as [(t' & E & -> & ->) | (uri' & E & _)]; [| discriminate].
    exists t'. reflexivity.
Qed.

(** X25. The metadata URI [handleSubmit] hands to
    [createLaunchTokenTransaction]: without an image nothing is fetched and
    the URI is the empty string; with an image it is the [metadataUri] of
    the response, and it is truthy. *)
Theorem handleSubmit_metadata_flow :
  forall (File Transaction Keypair Signature Wallet : Type)
         (parseFloat : string -> float)
         (env : SubmitEnv File Transaction Keypair Signature Wallet)
         (form : LaunchForm File) (wallet : Wallet),
    (formImage form = None ->
     existsb isFetch (handleSubmit parseFloat env form wallet) = false
     /\ forall e u,
          In e (handleSubmit parseFloat env form wallet) ->
          metadataOf e = Some u -> u = JsString EmptyString)
    /\ (forall image error uri,
           formImage form = Some image ->
           fetchUpload env (uploadFormData form image)
           = FetchResponse true (BodyData error uri) ->
           forall e u,
             In e (handleSubmit parseFloat env form wallet) ->
             metadataOf e = Some u -> u = uri /\ truthy u = true).
Proof.
  intros File Transaction Keypair Signature Wallet parseFloat env form wallet.
  destruct (handleSubmit_shape parseFloat env form wallet)
    as (tried & thrown & -> & H).
  assert (T : forall e u (l : list (Effect File Transaction Keypair Signature Wallet)),
             In e ([PreventDefault; SetIsSubmitting true] ++ l
                   ++ match thrown with
                      | Some t => [ToastLaunchError t]
                      | None => []
                      end ++ [SetIsSubmitting false])%list ->
             metadataOf e = Some u -> In e l).
  { intros e u l Hin Hm. cbn [app] in Hin.
    destruct Hin as [<- | [<- | Hin]]; try discriminate.
    apply in_app_or in Hin. destruct Hin as [Hin | Hin]; [exact Hin|].
    apply in_app_or in Hin. destruct Hin as [Hin | [<- | []]]; [| discriminate].
    destruct thrown; [destruct Hin as [<- | []]; discriminate | destruct Hin]. }
  destruct (uploadMetadata_cases env form)
    as [[U N] | [(image & error & uri & I & F & A & U)
                | (image & t & I & A & U)]];
    rewrite U in H; cbn [fst snd] in H;
    destruct H as [(t' & E & -> & ->) | (uri' & E & -> & ->)];
    try discriminate.
  - injection E as <-.
    pose proof (launch_cases parseFloat env form wallet (JsString EmptyString))
      as L.
    destruct (launch parseFloat env form wallet (JsString EmptyString))
      as [more thrown]. cbn [fst snd app] in *.
    destruct L as (L1 & L2 & L3 & L4 & L5 & L6).
    split.
    + intros _. split.
      * cbn [existsb isFetch orb]. rewrite !existsb_app, L2.
        now destruct thrown.
      * intros e u Hin Hm. apply (L4 e u); [| exact Hm].
        exact (T e u more Hin Hm).
    + intros image error uri I. congruence.
  - injection E as <-.
    pose proof (launch_cases parseFloat env form wallet uri) as L.
    destruct (launch parseFloat env form wallet uri) as [more thrown].
    cbn [fst snd] in *.
    destruct L as (L1 & L2 & L3 & L4 & L5 & L6).
    rewrite F in A. cbn [accepted] in A. apply andb_prop in A.
    destruct A as [A1 A2].
    split; [congruence|].
    intros image' error' uri' I' F' e u Hin Hm.
    assert (image' = image) as -> by congruence.
    rewrite F in F'. injection F' as <- <-.
    apply (T e u) in Hin; [| exact Hm].
    destruct Hin as [<- | Hin]; [discriminate|].
    assert (u = uri) as -> by exact (L4 e u Hin Hm). auto.
  - split; [congruence|].
    intros image' error' uri' I' F' e u Hin Hm.
    apply (T e u) in Hin; [| exact Hm]. destruct Hin as [<- | []]. discriminate.
Qed.

(** ** The further properties at concrete pools, positions and forms *)

Lemma real_price_matches_pool_price_witness :
  calculateRealReservesPrice (@samplePool float _)
  = calculatePoolPrice samplePool.
Proof.
  apply (real_price_matches_pool_price float Number_float samplePool);
    reflexivity.
Defined.

Lemma swap_below_spot_witness :
  (calculateExpectedOutput samplePool 1 true * calculatePoolPrice samplePool
   < 1
   /\ calculateExpectedOutput samplePool 1 false
      < 1 * calculatePoolPrice samplePool)%Q.
Proof. apply (swap_below_spot samplePool 1%Q); reflexivity. Defined.

Lemma round_trip_quote_loses_witness :
  (calculateExpectedOutput samplePool
     (calculateExpectedOutput samplePool 1 true) false < 1
   /\ calculateExpectedOutput samplePool
        (calculateExpectedOutput samplePool 1 false) true < 1)%Q.
Proof. apply (round_trip_quote_loses samplePool 1%Q); reflexivity. Defined.

Lemma quote_zero_and_positive_witness :
  (calculateExpectedOutput samplePool 0 true == 0
   /\ forall dx, 0 < dx -> 0 < calculateExpectedOutput samplePool dx true)%Q.
Proof. apply (quote_zero_and_positive samplePool true); reflexivity. Defined.

Lemma split_quote_overstates_witness :
  (calculateExpectedOutput samplePool (1 + 2) false
   < calculateExpectedOutput samplePool 1 false
     + calculateExpectedOutput samplePool 2 false)%Q.
Proof.
  apply (split_quote_overstates samplePool false 1%Q 2%Q); reflexivity.
Defined.

Lemma marketCap_liquidity_relation_witness :
  (2 * calculateRawMarketCap samplePool 150
   * (effectiveTokenReserve samplePool / 1000000)
   == calculateRawLiquidity samplePool 150 * TOKEN_Y_SUPPLY)%Q.
Proof.
  apply (marketCap_liquidity_relation samplePool 150%Q). discriminate.
Defined.

Lemma entry_price_long_short_reciprocal_witness :
  (calculatePositionEntryPrice 1000 2 3 true 150
   * calculatePositionEntryPrice 1000 2 3 false 150
   == 150 * 150)%Q.
Proof.
  apply (entry_price_long_short_reciprocal 1000%Q 2%Q 3%Q 150%Q);
    discriminate.
Defined.

Lemma entry_price_scale_invariant_witness :
  (calculatePositionEntryPrice (7 * 1000) (7 * 2) 3 false 150
   == calculatePositionEntryPrice 1000 2 3 false 150)%Q.
Proof.
  apply (entry_price_scale_invariant 7%Q 1000%Q 2%Q 3%Q 150%Q false);
    discriminate.
Defined.

Lemma entry_price_of_quoted_long_above_spot_witness :
  (calculatePoolPrice samplePool * 150
   < calculatePositionEntryPrice
       (rawOutputAmount samplePool (1000000000 * 2 / 1000000000) true)
       1000000000 2 true 150)%Q.
Proof.
  apply (entry_price_of_quoted_long_above_spot
           samplePool 1000000000%Q 2%Q 150%Q); reflexivity.
Defined.

Lemma doubling_longs_factor_witness :
  (perSecond (calculateFundingRate (doubleLongs unitPool))
   == ((2 * totalDeltaKLongs unitPool + totalDeltaKShorts unitPool)
       / (totalDeltaKLongs unitPool + totalDeltaKShorts unitPool)) ^ 2
      * perSecond (calculateFundingRate unitPool))%Q.
Proof. apply (doubling_longs_factor unitPool); discriminate. Defined.

Lemma funding_rate_increases_with_exposure_witness :
  (perSecond (calculateFundingRate (withTotalDeltaKLongs unitPool 1))
   < perSecond (calculateFundingRate (withTotalDeltaKLongs unitPool 2)))%Q.
Proof.
  apply (funding_rate_increases_with_exposure unitPool 1%Q 2%Q);
    try reflexivity; discriminate.
Defined.

Lemma pnl_closed_form_witness :
  (calculatePositionPnL unitLong samplePool 150
   == (calculateExpectedOutput samplePool (rawSize unitLong / 1000000) false
       / (rawCollateral unitLong / 1000000000) - leverage unitLong) * 100)%Q.
Proof.
  assert (Hc : ~ (rawCollateral unitLong == 0)%Q) by discriminate.
  assert (Hp : ~ (150 == 0)%Q) by discriminate.
  exact (proj1 (pnl_closed_form unitLong samplePool 150%Q Hc Hp) eq_refl).
Defined.

Lemma pnl_independent_of_sol_price_witness :
  (calculatePositionPnL unitLong samplePool 1
   == calculatePositionPnL unitLong samplePool 150)%Q.
Proof.
  apply (pnl_independent_of_sol_price unitLong samplePool 1%Q 150%Q);
    [discriminate | discriminate | discriminate | left; reflexivity].
Defined.

Lemma pnl_long_floor_witness :
  (- (100) * leverage unitLong
   < calculatePositionPnL unitLong samplePool 150)%Q.
Proof.
  apply (pnl_long_floor unitLong samplePool 150%Q);
    [reflexivity | reflexivity | reflexivity | reflexivity | discriminate
    | reflexivity].
Defined.

Lemma marketCap_drained_pool_witness :
  calculateMarketCap drainedPool 150%float = "$NaN"
  \/ calculateMarketCap drainedPool 150%float = "$InfinityB"
  \/ calculateMarketCap drainedPool 150%float = "$-Infinity".
Proof. apply (marketCap_drained_pool drainedPool 150%float). reflexivity. Defined.


Lemma format_two_decimals_witness :
  exists sign a b : string,
    (sign = EmptyString \/ sign = "-")
    /\ formatTokenAmount 2500000%float
       = sign ++ a ++ "." ++ b ++ bandSuffix 2500000%float
    /\ formatNumber 2500000%float
       = "$" ++ sign ++ a ++ "." ++ b ++ bandSuffix 2500000%float
    /\ (1 <= String.length a)%nat /\ String.length b = 2%nat
    /\ allDigits a = true /\ allDigits b = true.
Proof. apply (format_two_decimals 2500000%float); reflexivity. Defined.

Lemma handleSubmit_failed_upload_stops_witness :
  exists thrown,
    handleSubmit (fun _ => 30%float) offlineEnv sampleForm tt
    = [PreventDefault; SetIsSubmitting true;
       Fetch "/api/upload-ipfs" (uploadFormData sampleForm "logo.png");
       ToastLaunchError thrown; SetIsSubmitting false].
Proof.
  apply (handleSubmit_failed_upload_stops
           string unit unit unit unit (fun _ => 30%float)
           offlineEnv sampleForm tt "logo.png"); reflexivity.
Defined.
